(** * SafetySpeak: the job queue processor and the audio playback controller

    A shallow embedding of the queue processing loop, the stage gateway and
    the playback handlers of the application component (App.tsx,
    services/geminiService.ts, services/fileUtils.ts, types.ts), and the
    properties of the design document that can be stated over it.

    Conventions of the embedding.
    - A JavaScript string is a [string]; one character stands for one UTF-16
      code unit below 256.  The Korean message literals are kept as they are
      in the source (their length here is a byte count; nothing below depends
      on the length of a message).
    - [undefined] and [null] are both [None].
    - A promise that resolves or rejects is a [Result]; the answers of the
      browser and of the remote services are oracles ([Backend], [Gateway]).
    - [AudioContext.currentTime] and every duration are exact rationals
      ([Qc]); each handler receives the clock reading as an argument.
    - A React state setter called with an updater is an [Update]; the state
      captured by a closure is an explicit argument of the function that
      models it. *)

From Stdlib Require Import String Ascii List Bool Arith NArith QArith Qcanon Lia.
Import ListNotations.

Close Scope Q_scope.
Close Scope Qc_scope.
Open Scope string_scope.
Open Scope nat_scope.

(* ================================================================== *)
(** * JavaScript values *)

Module JS.

(** [Boolean(s)] for a string: only the empty string is falsy. *)
Definition truthy (s : string) : bool := negb (String.eqb s "").

(** [Boolean(x)] for [string | null]. *)
Definition truthyOpt (o : option string) : bool :=
  match o with
  | Some s => truthy s
  | None => false
  end.

Definition isSome {A : Type} (o : option A) : bool :=
  match o with
  | Some _ => true
  | None => false
  end.

(** [String.prototype.toLowerCase] on code units below 256: A-Z and the
    Latin-1 capitals U+00C0..U+00DE (without the multiplication sign). *)
Definition lowerChar (c : ascii) : ascii :=
  let n := nat_of_ascii c in
  if ((65 <=? n) && (n <=? 90)) ||
     ((192 <=? n) && (n <=? 222) && negb (n =? 215))
  then ascii_of_nat (n + 32)
  else c.

Fixpoint toLowerCase (s : string) : string :=
  match s with
  | EmptyString => EmptyString
  | String c s' => String (lowerChar c) (toLowerCase s')
  end.

(** [s.startsWith(p)]. *)
Definition startsWith (s p : string) : bool := String.prefix p s.

(** [s.endsWith(suffix)]. *)
Definition endsWith (s suffix : string) : bool :=
  let n := String.length s in
  let k := String.length suffix in
  (k <=? n) && String.eqb (substring (n - k) k s) suffix.

(** [s.includes(sub)]. *)
Fixpoint includes (s sub : string) : bool :=
  String.prefix sub s ||
  match s with
  | EmptyString => false
  | String _ s' => includes s' sub
  end.

(** White space removed by [trim]: TAB, LF, VT, FF, CR, SPACE, NBSP. *)
Definition isWhite (c : ascii) : bool :=
  let n := nat_of_ascii c in
  ((9 <=? n) && (n <=? 13)) || (n =? 32) || (n =? 160).

Fixpoint trimStart (s : string) : string :=
  match s with
  | EmptyString => EmptyString
  | String c s' => if isWhite c then trimStart s' else s
  end.

Fixpoint trimEnd (s : string) : string :=
  match s with
  | EmptyString => EmptyString
  | String c s' =>
      let t := trimEnd s' in
      if isWhite c && String.eqb t "" then EmptyString else String c t
  end.

(** [s.trim()]. *)
Definition trim (s : string) : string := trimEnd (trimStart s).

(** [s.slice(0, n)] for [n >= 0]. *)
Definition slice0 (n : nat) (s : string) : string := substring 0 n s.

(** [xs.join(sep)]. *)
Definition join (sep : string) (xs : list string) : string :=
  String.concat sep xs.

(** [xs.some(p)]. *)
Definition some {A : Type} (p : A -> bool) (xs : list A) : bool :=
  existsb p xs.

End JS.

(** A settled promise: the value it resolves to, or the [message] of the
    [Error] it rejects with. *)
Inductive Result (A : Type) : Type :=
| Resolved (value : A)
| Rejected (message : string).

Arguments Resolved {A} value.
Arguments Rejected {A} message.

(* ================================================================== *)
(** * types.ts *)

Inductive TargetLanguage : Type :=
| KOREAN | ENGLISH | CHINESE | VIETNAMESE | RUSSIAN | UZBEK.

Definition TargetLanguage_eqb (a b : TargetLanguage) : bool :=
  match a, b with
  | KOREAN, KOREAN | ENGLISH, ENGLISH | CHINESE, CHINESE
  | VIETNAMESE, VIETNAMESE | RUSSIAN, RUSSIAN | UZBEK, UZBEK => true
  | _, _ => false
  end.

(** [ProcessStatus]: 'idle' | 'extracting' | 'translating' | 'speaking' |
    'completed' | 'error'. *)
Inductive ProcessStatus : Type :=
| Idle | Extracting | Translating | Speaking | Completed | Error.

Definition ProcessStatus_eqb (a b : ProcessStatus) : bool :=
  match a, b with
  | Idle, Idle | Extracting, Extracting | Translating, Translating
  | Speaking, Speaking | Completed, Completed | Error, Error => true
  | _, _ => false
  end.

(** The browser's [File]: its name, its size in bytes, and a handle that
    stands for its content. *)
Record File : Type := mkFile {
  name : string;
  size : N;
  blob : nat
}.

(** The browser's [AudioBuffer]: its [duration] in seconds and a handle that
    stands for the decoded samples. *)
Record AudioBuffer : Type := mkAudioBuffer {
  duration : Qc;
  pcm : nat
}.

Record QueueItem : Type := mkQueueItem {
  id : string;
  file : option File;
  fileName : string;
  originalText : string;
  translatedText : option string;
  targetLanguage : TargetLanguage;
  status : ProcessStatus;
  error : option string;
  audioBuffer : option AudioBuffer
}.

Record AppState : Type := mkAppState {
  queue : list QueueItem;
  selectedLanguage : TargetLanguage;
  isProcessingQueue : bool;
  currentItemId : option string;
  globalError : option string;
  autoPlay : bool
}.

(** [Partial<QueueItem>] restricted to the keys the component writes.  An
    outer [None] is a key that is not in the object literal; [Some None] is a
    key written with [undefined] or [null]. *)
Record Partial : Type := mkPartial {
  p_status : option ProcessStatus;
  p_originalText : option string;
  p_translatedText : option string;
  p_error : option (option string);
  p_audioBuffer : option (option AudioBuffer)
}.

Definition noUpdates : Partial := mkPartial None None None None None.

(** [{ ...item, ...updates }]. *)
Definition merge (item : QueueItem) (updates : Partial) : QueueItem :=
  {| id := id item;
     file := file item;
     fileName := fileName item;
     originalText :=
       match p_originalText updates with Some t => t | None => originalText item end;
     translatedText :=
       match p_translatedText updates with Some t => Some t | None => translatedText item end;
     targetLanguage := targetLanguage item;
     status :=
       match p_status updates with Some s => s | None => status item end;
     error :=
       match p_error updates with Some e => e | None => error item end;
     audioBuffer :=
       match p_audioBuffer updates with Some b => b | None => audioBuffer item end |}.

(* ================================================================== *)
(** * services/fileUtils.ts *)

Module FileUtils.

Definition MAX_FILE_SIZE_MB : N := 3.
Definition MAX_FILE_SIZE_BYTES : N := MAX_FILE_SIZE_MB * 1024 * 1024.

Definition validExtensions : list string :=
  [".docx"; ".xlsx"; ".pptx"; ".hwp"; ".txt"; ".pdf"].

Definition isValidFileType (file : File) : bool :=
  let fileName := JS.toLowerCase (name file) in
  JS.some (fun ext => JS.endsWith fileName ext) validExtensions.

Definition isValidFileSize (file : File) : bool :=
  (size file <=? MAX_FILE_SIZE_BYTES)%N.

End FileUtils.

(** fileUtils.ts: [fileToBase64]. *)
Module FileReader.

(** [s.split(sep)] for a separator of one character. *)
Fixpoint split (sep : ascii) (s : string) : list string :=
  match s with
  | EmptyString => [EmptyString]
  | String c rest =>
      if Ascii.eqb c sep then EmptyString :: split sep rest
      else match split sep rest with
           | head :: tail => String c head :: tail
           | [] => [String c EmptyString]
           end
  end.

(** [s.includes(c)] for one character. *)
Fixpoint occurs (c : ascii) (s : string) : bool :=
  match s with
  | EmptyString => false
  | String c' rest => Ascii.eqb c' c || occurs c rest
  end.

(** [fileToBase64(file)] over the outcome of [reader.readAsDataURL(file)]:
    the promise resolves with [result.split(',')[1]], which is [undefined]
    ([None]) when the result has no comma. *)
Definition fileToBase64 (readAsDataURL : File -> Result string) (file : File)
  : Result (option string) :=
  match readAsDataURL file with
  | Resolved result => Resolved (nth_error (split "," result) 1)
  | Rejected error => Rejected error
  end.

End FileReader.

(* ================================================================== *)
(** * services/geminiService.ts *)

(** What the service module awaits from outside: the environment variable,
    the file readers, the document parsers, the three [generateContent]
    requests and the audio decoders of services/audioUtils.ts.  Each request
    is identified by the data its prompt is built from. *)
Record Backend : Type := mkBackend {
  API_KEY : option string;
  fileToArrayBuffer : File -> Result nat;
  fileToText : File -> Result string;
  fileToBase64 : File -> Result string;
  mammoth_extractRawText : nat -> Result string;
  readXlsxFile : File -> Result (list (list string));
  generateContent_pdf : string -> Result (option string);
  generateContent_translate : string -> TargetLanguage -> Result (option string);
  generateContent_tts : string -> Result (option string);
  decodeBase64 : string -> Result nat;
  decodeAudioData : nat -> Result AudioBuffer
}.

Module GeminiService.

Definition andThen {A B : Type} (r : Result A) (k : A -> Result B) : Result B :=
  match r with
  | Resolved a => k a
  | Rejected m => Rejected m
  end.

(** [try { r } catch (error) { h(error.message) }]. *)
Definition orElse {A : Type} (r : Result A) (h : string -> Result A) : Result A :=
  match r with
  | Resolved a => Resolved a
  | Rejected m => h m
  end.

Definition apiKeyMessage : string :=
  "API 키가 설정되지 않았습니다. .env 파일에 키를 넣거나, GitHub Settings > Secrets에 'API_KEY'를 추가해주세요.".

Definition validateApiKey (b : Backend) : Result unit :=
  match API_KEY b with
  | None => Rejected apiKeyMessage
  | Some k =>
      if negb (JS.truthy k) || JS.startsWith k "YOUR_GEMINI" || String.eqb k "undefined"
      then Rejected apiKeyMessage
      else Resolved tt
  end.

Definition hwpMessage : string :=
  "HWP 및 PPTX 파일은 현재 직접 처리가 어렵습니다. 내용을 복사하여 붙여넣거나 PDF로 변환하여 업로드해주세요.".

Definition newline : string := String (ascii_of_nat 10) EmptyString.

Definition extractTextFromFile (b : Backend) (file : File) : Result string :=
  let lowerName := JS.toLowerCase (name file) in
  orElse
    (if JS.endsWith lowerName ".docx" then
       andThen (fileToArrayBuffer b file) (fun arrayBuffer =>
       andThen (mammoth_extractRawText b arrayBuffer) (fun value =>
       Resolved (JS.trim value)))
     else if JS.endsWith lowerName ".xlsx" then
       andThen (readXlsxFile b file) (fun rows =>
       Resolved (JS.trim (JS.join newline (map (JS.join " ") rows))))
     else if JS.endsWith lowerName ".txt" then
       fileToText b file
     else if JS.endsWith lowerName ".pdf" then
       andThen (validateApiKey b) (fun _ =>
       andThen (fileToBase64 b file) (fun base64Data =>
       andThen (generateContent_pdf b base64Data) (fun text =>
       Resolved (match text with
                 | Some t => if JS.truthy (JS.trim t) then JS.trim t else ""
                 | None => ""
                 end))))
     else if JS.endsWith lowerName ".hwp" || JS.endsWith lowerName ".pptx" then
       Rejected hwpMessage
     else
       Rejected "지원되지 않는 파일 형식입니다.")
    (fun message =>
       if JS.includes message "API 키" then Rejected message
       else if JS.includes message "HWP" || JS.includes message "PPTX" then Rejected message
       else if JS.includes message "400" then
         Rejected "파일 형식이 올바르지 않거나 AI가 처리할 수 없습니다. PDF로 변환 후 시도해주세요."
       else
         Rejected ("파일 내용을 읽는 중 오류가 발생했습니다: " ++
                   (if JS.truthy message then message else "Unknown error"))).

Definition translateSafetyText (b : Backend) (text : string) (targetLang : TargetLanguage)
  : Result string :=
  andThen (validateApiKey b) (fun _ =>
  orElse
    (andThen (generateContent_translate b text targetLang) (fun translatedText =>
     match translatedText with
     | Some t => if JS.truthy t then Resolved (JS.trim t)
                 else Rejected "Translation failed: Empty response"
     | None => Rejected "Translation failed: Empty response"
     end))
    (fun message =>
       Rejected ("번역 실패: " ++ (if JS.truthy message then message else "알 수 없는 오류")))).

(** The longest text one speech request accepts. *)
Definition MAX_SPEECH_LENGTH : nat := 4000.

Definition generateSpeech (b : Backend) (text : string) : Result AudioBuffer :=
  andThen (validateApiKey b) (fun _ =>
  if MAX_SPEECH_LENGTH <? String.length text then
    Rejected "번역된 텍스트가 너무 길어(4000자 초과) 음성으로 변환할 수 없습니다. 내용을 나누어 입력해주세요."
  else
    orElse
      (andThen (generateContent_tts b text) (fun base64Audio =>
       match base64Audio with
       | None => Rejected "모델이 오디오 데이터를 반환하지 않았습니다."
       | Some d =>
           if negb (JS.truthy d) then Rejected "모델이 오디오 데이터를 반환하지 않았습니다."
           else
             andThen (decodeBase64 b d) (fun audioBytes =>
             orElse (decodeAudioData b audioBytes)
                    (fun _ => Rejected "오디오 데이터 디코딩에 실패했습니다."))
       end))
      (fun message =>
         let errorMessage := "음성 생성에 실패했습니다." in
         Rejected
           (if JS.truthy message then
              if JS.includes message "400" then errorMessage ++ " (요청 형식이 잘못되었습니다)"
              else if JS.includes message "429" then errorMessage ++ " (요청이 너무 많습니다)"
              else errorMessage ++ " (" ++ message ++ ")"
            else errorMessage))).

End GeminiService.

(** The three stage operations as the component sees them. *)
Record Gateway : Type := mkGateway {
  gw_extract : File -> Result string;
  gw_translate : string -> TargetLanguage -> Result string;
  gw_speech : string -> Result AudioBuffer
}.

Definition geminiService (b : Backend) : Gateway :=
  {| gw_extract := GeminiService.extractTextFromFile b;
     gw_translate := GeminiService.translateSafetyText b;
     gw_speech := GeminiService.generateSpeech b |}.

(** The same backend with another value of the environment variable. *)
Definition withKey (key : option string) (b : Backend) : Backend :=
  {| API_KEY := key;
     fileToArrayBuffer := fileToArrayBuffer b;
     fileToText := fileToText b;
     fileToBase64 := fileToBase64 b;
     mammoth_extractRawText := mammoth_extractRawText b;
     readXlsxFile := readXlsxFile b;
     generateContent_pdf := generateContent_pdf b;
     generateContent_translate := generateContent_translate b;
     generateContent_tts := generateContent_tts b;
     decodeBase64 := decodeBase64 b;
     decodeAudioData := decodeAudioData b |}.

(* ================================================================== *)
(** * App.tsx: the queue and its processing loop *)

#[local] Set Warnings "-abstract-large-number".
Definition MAX_INPUT_LENGTH : nat := 10000.

(** The updaters the component passes to [setState]. *)
Inductive Update : Type :=
| AddToQueue (items : list QueueItem)
| RemoveFromQueue (id : string)
| ClearQueue
| UpdateItemStatus (id : string) (updates : Partial)
| SetCurrentItemId (id : string)
| StopProcessing
| ToggleOff
| ToggleOn
| SetGlobalError (message : option string).

Definition withQueue (prev : AppState) (q : list QueueItem) : AppState :=
  {| queue := q;
     selectedLanguage := selectedLanguage prev;
     isProcessingQueue := isProcessingQueue prev;
     currentItemId := currentItemId prev;
     globalError := globalError prev;
     autoPlay := autoPlay prev |}.

Definition withControl (prev : AppState) (running : bool) (current : option string)
  : AppState :=
  {| queue := queue prev;
     selectedLanguage := selectedLanguage prev;
     isProcessingQueue := running;
     currentItemId := current;
     globalError := globalError prev;
     autoPlay := autoPlay prev |}.

Definition withGlobalError (prev : AppState) (message : option string) : AppState :=
  {| queue := queue prev;
     selectedLanguage := selectedLanguage prev;
     isProcessingQueue := isProcessingQueue prev;
     currentItemId := currentItemId prev;
     globalError := message;
     autoPlay := autoPlay prev |}.

(** The function [updateItemStatus] maps over the queue:
    [item => item.id === id ? { ...item, ...updates } : item]. *)
Definition updateItem (i : string) (updates : Partial) (item : QueueItem) : QueueItem :=
  if String.eqb (id item) i then merge item updates else item.

(** The updater applied to the state React holds at that moment ([prev]). *)
Definition applyUpdate (u : Update) (prev : AppState) : AppState :=
  match u with
  | AddToQueue items =>
      withGlobalError (withQueue prev (queue prev ++ items)%list) None
  | RemoveFromQueue i =>
      withQueue prev (filter (fun item => negb (String.eqb (id item) i)) (queue prev))
  | ClearQueue =>
      withControl (withQueue prev []) false None
  | UpdateItemStatus i updates =>
      withQueue prev (map (updateItem i updates) (queue prev))
  | SetCurrentItemId i => withControl prev (isProcessingQueue prev) (Some i)
  | StopProcessing => withControl prev false None
  | ToggleOff => withControl prev false (currentItemId prev)
  | ToggleOn => withControl prev true None
  | SetGlobalError message => withGlobalError prev message
  end.

(** Whether the updater stores a newly allocated array in [state.queue]
    (spread, [filter], [map] and the literal [[]] all allocate). *)
Definition allocatesQueue (u : Update) : bool :=
  match u with
  | AddToQueue _ | RemoveFromQueue _ | ClearQueue | UpdateItemStatus _ _ => true
  | _ => false
  end.

(** The awaited operations of [processNext]. *)
Inductive Call : Type :=
| ExtractTextFromFile (file : File)
| TranslateSafetyText (text : string) (lang : TargetLanguage)
| GenerateSpeech (text : string)
| Delay (ms : nat).

(** What one run of [processNext] does, in program order. *)
Inductive Action : Type :=
| SetState (u : Update)
| Await (c : Call)
| ConsoleError (message : string)
| SetTimeout (ms : nat).

(** Code that performs actions and then returns or throws. *)
Definition M (A : Type) : Type := (list Action * Result A)%type.

Definition ret {A : Type} (a : A) : M A := ([], Resolved a).

Definition throw {A : Type} (message : string) : M A := ([], Rejected message).

Definition bind {A B : Type} (m : M A) (k : A -> M B) : M B :=
  match m with
  | (acts, Resolved a) => let (acts', r) := k a in ((acts ++ acts')%list, r)
  | (acts, Rejected message) => (acts, Rejected message)
  end.

(** [try { m } catch (e) { handler(e.message) }]. *)
Definition catch {A : Type} (m : M A) (handler : string -> M A) : M A :=
  match m with
  | (acts, Resolved a) => (acts, Resolved a)
  | (acts, Rejected message) => let (acts', r) := handler message in ((acts ++ acts')%list, r)
  end.

Definition perform (a : Action) : M unit := ([a], Resolved tt).

(** [await] of a call whose promise settles as [r]. *)
Definition await {A : Type} (c : Call) (r : Result A) : M A := ([Await c], r).

Declare Scope m_scope.
Delimit Scope m_scope with M.
Notation "x <- m ;; k" := (bind m (fun x => k))
  (at level 61, m at next level, right associativity) : m_scope.
Notation "m ;; k" := (bind m (fun _ => k))
  (at level 61, right associativity) : m_scope.

Definition updateItemStatus (i : string) (updates : Partial) : M unit :=
  perform (SetState (UpdateItemStatus i updates)).

Definition setStatus (s : ProcessStatus) : Partial :=
  mkPartial (Some s) None None None None.

Definition setOriginalText (t : string) : Partial :=
  mkPartial None (Some t) None None None.

Definition setTranslatedText (t : string) : Partial :=
  mkPartial None None (Some t) None None.

Definition synthesisFailureNote : string := "음성 생성 실패".

(** [{ status: 'completed', audioBuffer, error: audioBuffer ? undefined : ... }]. *)
Definition setCompleted (audio : option AudioBuffer) : Partial :=
  mkPartial (Some Completed) None None
            (Some (match audio with
                   | Some _ => None
                   | None => Some synthesisFailureNote
                   end))
            (Some audio).

(** [{ status: 'error', error: message || ... }]. *)
Definition setError (message : string) : Partial :=
  mkPartial (Some Error) None None
            (Some (Some (if JS.truthy message then message else "처리 중 오류 발생")))
            None.

(** [!textToTranslate && nextItem.file]: the file the extraction stage
    reads, when the stage runs. *)
Definition needsExtraction (nextItem : QueueItem) : option File :=
  match file nextItem with
  | Some f => if negb (JS.truthy (originalText nextItem)) then Some f else None
  | None => None
  end.

(** [if (t.length > MAX_INPUT_LENGTH) t = t.slice(0, MAX_INPUT_LENGTH)]. *)
Definition clip (t : string) : string :=
  if MAX_INPUT_LENGTH <? String.length t then JS.slice0 MAX_INPUT_LENGTH t else t.

Section ProcessNext.

Variable gw : Gateway.

Local Open Scope m_scope.

(** Stage 1 of the [try] block: [textToTranslate] after the optional
    extraction. *)
Definition extraction (nextItem : QueueItem) : M string :=
  let textToTranslate := originalText nextItem in
  match needsExtraction nextItem with
  | Some f =>
      updateItemStatus (id nextItem) (setStatus Extracting) ;;
      catch
        (extracted <- await (ExtractTextFromFile f) (gw_extract gw f) ;;
         let clipped := clip extracted in
         updateItemStatus (id nextItem) (setOriginalText clipped) ;;
         ret clipped)
        (fun message => throw ("파일 읽기 실패: " ++ message))
  | None => ret textToTranslate
  end.

(** The two guards between extraction and translation. *)
Definition guards (nextItem : QueueItem) (textToTranslate : string) : M unit :=
  (if negb (JS.truthy textToTranslate) && negb (JS.isSome (file nextItem))
   then throw "번역할 텍스트가 없습니다."
   else ret tt) ;;
  (if negb (JS.truthy (JS.trim textToTranslate))
   then throw "텍스트를 추출할 수 없거나 내용이 비어있습니다."
   else ret tt).

(** Stage 2. *)
Definition translation (nextItem : QueueItem) (textToTranslate : string) : M string :=
  updateItemStatus (id nextItem) (setStatus Translating) ;;
  translated <-
    (if TargetLanguage_eqb (targetLanguage nextItem) KOREAN then
       await (Delay 300) (Resolved tt) ;;
       ret textToTranslate
     else
       await (TranslateSafetyText textToTranslate (targetLanguage nextItem))
             (gw_translate gw textToTranslate (targetLanguage nextItem))) ;;
  updateItemStatus (id nextItem) (setTranslatedText translated) ;;
  ret translated.

(** Stage 3: the inner [try] around [generateSpeech] swallows the error. *)
Definition synthesis (nextItem : QueueItem) (translated : string) : M unit :=
  updateItemStatus (id nextItem) (setStatus Speaking) ;;
  audioBuffer <-
    catch
      (buffer <- await (GenerateSpeech translated) (gw_speech gw translated) ;;
       ret (Some buffer))
      (fun message =>
         perform (ConsoleError "TTS generation failed, proceeding without audio") ;;
         ret None) ;;
  updateItemStatus (id nextItem) (setCompleted audioBuffer).

(** The outer [try ... catch] of [processNext]. *)
Definition pipeline (nextItem : QueueItem) : M unit :=
  catch
    (textToTranslate <- extraction nextItem ;;
     guards nextItem textToTranslate ;;
     translated <- translation nextItem textToTranslate ;;
     synthesis nextItem translated)
    (fun message => updateItemStatus (id nextItem) (setError message)).

(** [state.queue.find(item => item.status === 'idle')]. *)
Definition findIdle (q : list QueueItem) : option QueueItem :=
  find (fun item => ProcessStatus_eqb (status item) Idle) q.

(** One call of [processNext] by the closure of an effect run: [state] is
    the state that run captured, [isCancelled] the current value of its
    flag.  The last action re-arms the loop. *)
Definition processNext (state : AppState) (isCancelled : bool) : list Action :=
  if negb (isProcessingQueue state) || isCancelled then []
  else
    match findIdle (queue state) with
    | None => [SetState StopProcessing]
    | Some nextItem =>
        SetState (SetCurrentItemId (id nextItem))
          :: (fst (pipeline nextItem) ++ [SetTimeout 100])%list
    end.

End ProcessNext.

(** The state React holds once every [setState] of the run has been applied,
    starting from [live]. *)
Fixpoint commit (acts : list Action) (live : AppState) : AppState :=
  match acts with
  | [] => live
  | SetState u :: rest => commit rest (applyUpdate u live)
  | _ :: rest => commit rest live
  end.

(* ================================================================== *)
(** * App.tsx: the effect that drives the loop

    [useEffect(() => { let isCancelled = false; ...;
       if (state.isProcessingQueue && !state.currentItemId) processNext();
       return () => { isCancelled = true; };
     }, [state.isProcessingQueue, state.queue, state.currentItemId])]

    Every run of the effect callback creates one closure: it captures the
    [state] of its render and owns one [isCancelled] flag.  React calls the
    cleanup of the previous run, and the callback again, after a render in
    which a dependency differs ([Object.is]) from its value at the previous
    run.  Runs are numbered; the flag of run [k] is set exactly when a later
    run exists. *)

Definition Deps : Type := (bool * nat * option string)%type.

Definition option_string_eqb (a b : option string) : bool :=
  match a, b with
  | Some x, Some y => String.eqb x y
  | None, None => true
  | _, _ => false
  end.

Definition Deps_eqb (a b : Deps) : bool :=
  let '(p1, q1, c1) := a in
  let '(p2, q2, c2) := b in
  Bool.eqb p1 p2 && (q1 =? q2) && option_string_eqb c1 c2.

Record World : Type := mkWorld {
  live : AppState;                   (* the state React holds *)
  queueRef : nat;                    (* which array object [live.queue] is *)
  effectRun : nat;                   (* number of the latest effect run *)
  effectDeps : Deps;                 (* the dependencies at that run *)
  timers : list (nat * AppState)     (* pending [setTimeout] callbacks: the
                                        run that armed each one and the state
                                        its closure captured *)
}.

Definition deps (w : World) : Deps :=
  (isProcessingQueue (live w), queueRef w, currentItemId (live w)).

(** [setState(updater)]. *)
Definition setState (u : Update) (w : World) : World :=
  {| live := applyUpdate u (live w);
     queueRef := if allocatesQueue u then S (queueRef w) else queueRef w;
     effectRun := effectRun w;
     effectDeps := effectDeps w;
     timers := timers w |}.

Fixpoint setStates (acts : list Action) (w : World) : World :=
  match acts with
  | [] => w
  | SetState u :: rest => setStates rest (setState u w)
  | _ :: rest => setStates rest w
  end.

Definition armsTimer (acts : list Action) : bool :=
  existsb (fun a => match a with SetTimeout _ => true | _ => false end) acts.

(** The condition under which the effect callback calls [processNext]. *)
Definition effectGuard (state : AppState) : bool :=
  isProcessingQueue state && negb (JS.truthyOpt (currentItemId state)).

Section Effect.

Variable gw : Gateway.

(** [processNext()] called by the closure of run [k], which captured
    [state].  The run of [processNext] is taken as one step: its updaters
    are applied to the live state in order, and its last statement arms the
    timer of the same closure. *)
Definition launch (k : nat) (state : AppState) (w : World) : World :=
  let isCancelled := negb (k =? effectRun w) in
  let acts := processNext gw state isCancelled in
  let w' := setStates acts w in
  {| live := live w';
     queueRef := queueRef w';
     effectRun := effectRun w';
     effectDeps := effectDeps w';
     timers := if armsTimer acts then (timers w' ++ [(k, state)])%list else timers w' |}.

(** A render whose dependencies changed: cleanup of the previous run, then
    the effect callback over the rendered state. *)
Definition rerunEffect (w : World) : World :=
  let k := S (effectRun w) in
  let w' := {| live := live w;
               queueRef := queueRef w;
               effectRun := k;
               effectDeps := deps w;
               timers := timers w |} in
  if effectGuard (live w) then launch k (live w) w' else w'.

(** The callback [() => { if (!isCancelled) processNext(); }] of the oldest
    pending timer. *)
Definition fireTimer (w : World) : World :=
  match timers w with
  | [] => w
  | (k, state) :: rest =>
      let w' := {| live := live w;
                   queueRef := queueRef w;
                   effectRun := effectRun w;
                   effectDeps := effectDeps w;
                   timers := rest |} in
      if k =? effectRun w then launch k state w' else w'
  end.

(** One scheduling step: a pending render comes before the 100 ms timer. *)
Definition step (w : World) : World :=
  if negb (Deps_eqb (deps w) (effectDeps w)) then rerunEffect w
  else fireTimer w.

Fixpoint run (fuel : nat) (w : World) : World :=
  match fuel with
  | O => w
  | S fuel' => run fuel' (step w)
  end.

(** Nothing is left to do: no render is pending and no timer is armed. *)
Definition quiescent (w : World) : bool :=
  Deps_eqb (deps w) (effectDeps w) &&
  match timers w with [] => true | _ => false end.

End Effect.

(** The component at rest in [state], a state in which the queue is not
    being processed: the latest effect run saw this state and started
    nothing, and no timer is armed. *)
Definition atRest (state : AppState) : World :=
  {| live := state;
     queueRef := 0;
     effectRun := 0;
     effectDeps := (isProcessingQueue state, 0, currentItemId state);
     timers := [] |}.

(** The start/stop button. *)
Definition toggleProcessing (w : World) : World :=
  if isProcessingQueue (live w) then setState ToggleOff w else setState ToggleOn w.

(** [generateId()]: [Math.random] is an oracle; [genId k] is the identifier
    its [k]-th call returns. *)
Fixpoint newFileItems (genId : nat -> string) (k : nat) (lang : TargetLanguage)
         (files : list File) : list QueueItem :=
  match files with
  | [] => []
  | file :: rest =>
      if FileUtils.isValidFileType file then
        {| id := genId k;
           file := Some file;
           fileName := name file;
           originalText := "";
           translatedText := None;
           targetLanguage := lang;
           status := Idle;
           error := None;
           audioBuffer := None |} :: newFileItems genId (S k) lang rest
      else newFileItems genId k lang rest
  end.

(** [handleFiles(fileList)], called by the file input and by the drop zone,
    over the state of the render; it returns the updater it passes to
    [setState], if any. *)
Definition handleFiles (genId : nat -> string) (k : nat) (state : AppState)
           (fileList : option (list File)) : option Update :=
  match fileList with
  | None => None
  | Some files =>
      let newItems := newFileItems genId k (selectedLanguage state) files in
      if (length newItems =? 0) && (0 <? length files)
      then Some (SetGlobalError (Some "지원되지 않는 파일 형식이 포함되어 있습니다."))
      else Some (AddToQueue newItems)
  end.

(** [addManualInput()] over the text of the input box. *)
Definition addManualInput (genId : nat -> string) (k : nat) (state : AppState)
           (manualInput : string) : option Update :=
  if negb (JS.truthy (JS.trim manualInput)) then None
  else Some (AddToQueue
               [{| id := genId k;
                   file := None;
                   fileName := "직접 입력한 텍스트";
                   originalText := manualInput;
                   translatedText := None;
                   targetLanguage := selectedLanguage state;
                   status := Idle;
                   error := None;
                   audioBuffer := None |}]).

(** [addTranslationJob(sourceItem, lang)]. *)
Definition addTranslationJob (genId : nat -> string) (k : nat)
           (sourceItem : QueueItem) (lang : TargetLanguage) : Update :=
  AddToQueue
    [{| id := genId k;
        file := file sourceItem;
        fileName := fileName sourceItem;
        originalText := originalText sourceItem;
        translatedText := None;
        targetLanguage := lang;
        status := Idle;
        error := None;
        audioBuffer := None |}].

(* ================================================================== *)
(** * App.tsx: the audio handlers *)

Definition Qc100 : Qc := Q2Qc 100.

(** [Math.min(a, b)]. *)
Definition Math_min (a b : Qc) : Qc :=
  match (a ?= b)%Qc with
  | Gt => b
  | _ => a
  end.

(** An [AudioBufferSourceNode] made by [playAudio]. *)
Record Source : Type := mkSource {
  src_buffer : AudioBuffer;
  src_offset : Qc;          (* the offset passed to [start(0, offset)] *)
  onended : option bool;    (* [None] is [null]; [Some b] is the handler
                               [() => { if (!isPaused) stopAudio(); }] whose
                               closure captured [isPaused = b] *)
  emitting : bool           (* started, and neither stopped nor ended *)
}.

(** The refs and the playback state of the component.  [animationFrameRef]
    is [true] while it holds the handle of a pending frame callback. *)
Record Player : Type := mkPlayer {
  audioSourceRef : option Source;
  animationFrameRef : bool;
  startTimeRef : Qc;
  offsetRef : Qc;
  playingItemId : option string;
  isPaused : bool;
  playbackProgress : Qc;
  orphans : list Source     (* sources that still emit although
                               [audioSourceRef] no longer holds them *)
}.

Definition initialPlayer : Player :=
  {| audioSourceRef := None;
     animationFrameRef := false;
     startTimeRef := Q2Qc 0;
     offsetRef := Q2Qc 0;
     playingItemId := None;
     isPaused := false;
     playbackProgress := Q2Qc 0;
     orphans := [] |}.

Definition stopAudio (p : Player) : Player :=
  {| audioSourceRef := None;
     animationFrameRef := false;
     startTimeRef := startTimeRef p;
     offsetRef := Q2Qc 0;
     playingItemId := None;
     isPaused := false;
     playbackProgress := Q2Qc 0;
     orphans := orphans p |}.

(** [pauseAudio()] when [ctx.currentTime] reads [now]. *)
Definition pauseAudio (now : Qc) (p : Player) : Player :=
  match audioSourceRef p with
  | None => p
  | Some _ =>
      let elapsed := (now - startTimeRef p)%Qc in
      {| audioSourceRef := None;
         animationFrameRef := false;
         startTimeRef := startTimeRef p;
         offsetRef := (offsetRef p + elapsed)%Qc;
         playingItemId := playingItemId p;
         isPaused := true;
         playbackProgress := playbackProgress p;
         orphans := orphans p |}
  end.

(** [playingItemId && playingItemId !== id]. *)
Definition otherItemActive (playing : option string) (i : string) : bool :=
  match playing with
  | Some j => JS.truthy j && negb (String.eqb j i)
  | None => false
  end.

(** [playAudio(buffer, id, resume)] when [ctx.currentTime] reads [now] and
    the audio context is running.  The handler belongs to the render [p]
    shows, so [playingItemId] and [isPaused] in its body are those of [p]. *)
Definition playAudio (buffer : AudioBuffer) (i : string) (resume : bool) (now : Qc)
           (p : Player) : Player :=
  let p1 := if negb resume && otherItemActive (playingItemId p) i
            then stopAudio p else p in
  let p2 := if JS.isSome (audioSourceRef p1) && negb resume
            then stopAudio p1 else p1 in
  let startOffset := if resume then offsetRef p2 else Q2Qc 0 in
  let source := {| src_buffer := buffer;
                   src_offset := startOffset;
                   onended := Some (isPaused p);
                   emitting := true |} in
  {| audioSourceRef := Some source;
     animationFrameRef := true;
     startTimeRef := now;
     offsetRef := if resume then offsetRef p2 else Q2Qc 0;
     playingItemId := Some i;
     isPaused := false;
     playbackProgress := playbackProgress p2;
     orphans :=
       match audioSourceRef p2 with
       | Some old => if emitting old then old :: orphans p2 else orphans p2
       | None => orphans p2
       end |}.

(** The handler a source carries, run when the source has ended. *)
Definition runOnended (handler : option bool) (p : Player) : Player :=
  match handler with
  | Some false => stopAudio p
  | _ => p
  end.

(** The source in [audioSourceRef] plays its buffer to the end. *)
Definition naturalEnd (p : Player) : Player :=
  match audioSourceRef p with
  | Some s =>
      if emitting s then
        runOnended (onended s)
          {| audioSourceRef := Some {| src_buffer := src_buffer s;
                                       src_offset := src_offset s;
                                       onended := onended s;
                                       emitting := false |};
             animationFrameRef := animationFrameRef p;
             startTimeRef := startTimeRef p;
             offsetRef := offsetRef p;
             playingItemId := playingItemId p;
             isPaused := isPaused p;
             playbackProgress := playbackProgress p;
             orphans := orphans p |}
      else p
  | None => p
  end.

Fixpoint removeNth {A : Type} (k : nat) (xs : list A) : list A :=
  match k, xs with
  | _, [] => []
  | O, _ :: rest => rest
  | S k', x :: rest => x :: removeNth k' rest
  end.

(** A source that [audioSourceRef] no longer holds plays to its end. *)
Definition orphanEnd (k : nat) (p : Player) : Player :=
  match nth_error (orphans p) k with
  | Some s =>
      runOnended (onended s)
        {| audioSourceRef := audioSourceRef p;
           animationFrameRef := animationFrameRef p;
           startTimeRef := startTimeRef p;
           offsetRef := offsetRef p;
           playingItemId := playingItemId p;
           isPaused := isPaused p;
           playbackProgress := playbackProgress p;
           orphans := removeNth k (orphans p) |}
  | None => p
  end.

(** The value [updateProgress] computes for [buffer] at time [now]. *)
Definition progressAt (buffer : AudioBuffer) (now : Qc) (p : Player) : Qc :=
  let elapsedSinceStart := (now - startTimeRef p)%Qc in
  let totalElapsed := (offsetRef p + elapsedSinceStart)%Qc in
  Math_min (totalElapsed / duration buffer * Qc100)%Qc Qc100.

(** One pending frame callback [updateProgress] runs. *)
Definition updateProgress (now : Qc) (p : Player) : Player :=
  if animationFrameRef p then
    match audioSourceRef p with
    | None =>
        {| audioSourceRef := None;
           animationFrameRef := false;
           startTimeRef := startTimeRef p;
           offsetRef := offsetRef p;
           playingItemId := playingItemId p;
           isPaused := isPaused p;
           playbackProgress := playbackProgress p;
           orphans := orphans p |}
    | Some s =>
        let progress := progressAt (src_buffer s) now p in
        {| audioSourceRef := Some s;
           animationFrameRef :=
             match (progress ?= Qc100)%Qc with Lt => true | _ => false end;
           startTimeRef := startTimeRef p;
           offsetRef := offsetRef p;
           playingItemId := playingItemId p;
           isPaused := isPaused p;
           playbackProgress := progress;
           orphans := orphans p |}
    end
  else p.

(** How many sources emit audio. *)
Definition emittingCount (p : Player) : nat :=
  (match audioSourceRef p with
   | Some s => if emitting s then 1 else 0
   | None => 0
   end) + length (orphans p).

(* ================================================================== *)
(** * App.tsx: the component, its handlers and its buttons *)

Record Ui : Type := mkUi {
  app : AppState;
  player : Player
}.

Definition initialState : AppState :=
  {| queue := [];
     selectedLanguage := CHINESE;
     isProcessingQueue := false;
     currentItemId := None;
     globalError := None;
     autoPlay := true |}.

Definition initialUi : Ui := {| app := initialState; player := initialPlayer |}.

Definition removeFromQueue (i : string) (ui : Ui) : Ui :=
  {| app := applyUpdate (RemoveFromQueue i) (app ui);
     player := if option_string_eqb (playingItemId (player ui)) (Some i)
               then stopAudio (player ui) else player ui |}.

Definition clearQueue (ui : Ui) : Ui :=
  {| app := applyUpdate ClearQueue (app ui);
     player := stopAudio (player ui) |}.

(** Every [setState] of the component reaches the state through the handler
    that issues it: a removal through [removeFromQueue], the emptying of the
    queue through [clearQueue]. *)
Definition dispatch (u : Update) (ui : Ui) : Ui :=
  match u with
  | RemoveFromQueue i => removeFromQueue i ui
  | ClearQueue => clearQueue ui
  | _ => {| app := applyUpdate u (app ui); player := player ui |}
  end.

(** The row of an item shows the playback buttons when
    [item.status === 'completed' && item.audioBuffer]. *)
Definition playable (item : QueueItem) : option AudioBuffer :=
  if ProcessStatus_eqb (status item) Completed then audioBuffer item else None.

(** The play / pause / resume button of a row. *)
Definition clickPlay (item : QueueItem) (now : Qc) (p : Player) : Player :=
  match playable item with
  | Some buffer =>
      if option_string_eqb (playingItemId p) (Some (id item)) then
        if isPaused p then playAudio buffer (id item) true now p
        else pauseAudio now p
      else playAudio buffer (id item) false now p
  | None => p
  end.

(** The stop button of a row, shown while [playingItemId === item.id]. *)
Definition clickStop (item : QueueItem) (p : Player) : Player :=
  match playable item with
  | Some _ =>
      if option_string_eqb (playingItemId p) (Some (id item)) then stopAudio p else p
  | None => p
  end.

Inductive Event : Type :=
| Dispatch (u : Update)
| ClickPlay (row : nat) (now : Qc)
| ClickStop (row : nat)
| Frame (now : Qc)
| Ended
| OrphanEnded (k : nat).

Definition onPlayer (f : Player -> Player) (ui : Ui) : Ui :=
  {| app := app ui; player := f (player ui) |}.

Definition handle (e : Event) (ui : Ui) : Ui :=
  match e with
  | Dispatch u => dispatch u ui
  | ClickPlay row now =>
      match nth_error (queue (app ui)) row with
      | Some item => onPlayer (clickPlay item now) ui
      | None => ui
      end
  | ClickStop row =>
      match nth_error (queue (app ui)) row with
      | Some item => onPlayer (clickStop item) ui
      | None => ui
      end
  | Frame now => onPlayer (updateProgress now) ui
  | Ended => onPlayer naturalEnd ui
  | OrphanEnded k => onPlayer (orphanEnd k) ui
  end.

Definition handleAll (events : list Event) (ui : Ui) : Ui :=
  fold_left (fun u e => handle e u) events ui.




(* ================================================================== *)
(** * The vocabulary of the properties *)

(** What the updaters of a run make of one queue item. *)
Fixpoint itemAfter (acts : list Action) (item : QueueItem) : QueueItem :=
  match acts with
  | [] => item
  | SetState (UpdateItemStatus i updates) :: rest =>
      itemAfter rest (updateItem i updates item)
  | _ :: rest => itemAfter rest item
  end.

(** The operations a run awaits, in order. *)
Fixpoint calls (acts : list Action) : list Call :=
  match acts with
  | [] => []
  | Await c :: rest => c :: calls rest
  | _ :: rest => calls rest
  end.

(** The statuses a run writes, in order. *)
Fixpoint statuses (acts : list Action) : list ProcessStatus :=
  match acts with
  | [] => []
  | SetState (UpdateItemStatus _ updates) :: rest =>
      match p_status updates with
      | Some s => s :: statuses rest
      | None => statuses rest
      end
  | _ :: rest => statuses rest
  end.

(** A run that only rewrites items in place. *)
Definition inPlace (a : Action) : bool :=
  match a with
  | SetState (UpdateItemStatus _ _) => true
  | SetState _ => false
  | _ => true
  end.

(** "Extraction, if needed, succeeds with [text]": how the gateway answers
    for the file of the item, when the stage runs. *)
Definition extractionResult (gw : Gateway) (item : QueueItem) : Result string :=
  match needsExtraction item with
  | Some f =>
      match gw_extract gw f with
      | Resolved t => Resolved (clip t)
      | Rejected message => Rejected message
      end
  | None => Resolved (originalText item)
  end.

(** "The text is empty or consists of white space only." *)
Definition blank (text : string) : bool := negb (JS.truthy (JS.trim text)).

(** "Translation succeeds with [translated]": for Korean nothing is asked of
    the gateway. *)
Definition translationResult (gw : Gateway) (item : QueueItem) (text : string)
  : Result string :=
  if TargetLanguage_eqb (targetLanguage item) KOREAN then Resolved text
  else gw_translate gw text (targetLanguage item).

Definition isTranslateCall (c : Call) : bool :=
  match c with
  | TranslateSafetyText _ _ => true
  | _ => false
  end.

Definition isSpeechCall (c : Call) : bool :=
  match c with
  | GenerateSpeech _ => true
  | _ => false
  end.

Definition isExtractCall (c : Call) : bool :=
  match c with
  | ExtractTextFromFile _ => true
  | _ => false
  end.

(** The updaters the handlers of the user issue. *)
Definition userUpdate (u : Update) : bool :=
  match u with
  | AddToQueue _ | RemoveFromQueue _ | ClearQueue
  | ToggleOff | ToggleOn | SetGlobalError _ => true
  | _ => false
  end.

(** The order in which an item goes through its statuses. *)
Definition rank (s : ProcessStatus) : nat :=
  match s with
  | Idle => 0 | Extracting => 1 | Translating => 2
  | Speaking => 3 | Completed => 4 | Error => 5
  end.

(** Strictly increasing. *)
Fixpoint ascending (ranks : list nat) : bool :=
  match ranks with
  | a :: (b :: _) as rest => (a <? b) && ascending rest
  | _ => true
  end.

(** "The item has reached a final status." *)
Definition terminal (s : ProcessStatus) : bool :=
  match s with
  | Completed | Error => true
  | _ => false
  end.

(** An item has something to translate or a file to read it from. *)
Definition hasSource (item : QueueItem) : bool :=
  JS.isSome (file item) || negb (blank (originalText item)).

(** The updaters that write neither [isProcessingQueue] nor
    [currentItemId]. *)
Definition keepsControl (u : Update) : bool :=
  match u with
  | AddToQueue _ | RemoveFromQueue _ | UpdateItemStatus _ _ | SetGlobalError _ => true
  | _ => false
  end.

(** A series of state updates, each followed by the render it causes. *)
Definition renders (gw : Gateway) (updates : list Update) (w : World) : World :=
  fold_left (fun w' u => step gw (setState u w')) updates w.


(** The merged updates of a run that reaches the end of stage 3, when
    stage 1 left [text] and stage 2 left [translated]. *)
Definition completedWith (gw : Gateway) (nextItem : QueueItem)
           (text translated : string) : Partial :=
  {| p_status := Some Completed;
     p_originalText :=
       match needsExtraction nextItem with Some _ => Some text | None => None end;
     p_translatedText := Some translated;
     p_error :=
       Some (match gw_speech gw translated with
             | Resolved _ => None
             | Rejected _ => Some synthesisFailureNote
             end);
     p_audioBuffer :=
       Some (match gw_speech gw translated with
             | Resolved buffer => Some buffer
             | Rejected _ => None
             end) |}.

(** "Extraction fails, or the empty-content guard is hit, or translation
    fails." *)
Inductive HardFailure (gw : Gateway) (item : QueueItem) : Prop :=
| ExtractionFails (message : string) :
    extractionResult gw item = Rejected message ->
    HardFailure gw item
| GuardHit (text : string) :
    extractionResult gw item = Resolved text ->
    blank text = true ->
    HardFailure gw item
| TranslationFails (text message : string) :
    extractionResult gw item = Resolved text ->
    blank text = false ->
    translationResult gw item text = Rejected message ->
    HardFailure gw item.

(** The same file with another size, and the same item over it. *)
Definition resize (bytes : File -> N) (f : File) : File :=
  {| name := name f; size := bytes f; blob := blob f |}.

Definition resizeItem (bytes : File -> N) (item : QueueItem) : QueueItem :=
  {| id := id item;
     file := option_map (resize bytes) (file item);
     fileName := fileName item;
     originalText := originalText item;
     translatedText := translatedText item;
     targetLanguage := targetLanguage item;
     status := status item;
     error := error item;
     audioBuffer := audioBuffer item |}.

(* ================================================================== *)
(** * Sample data *)

Module Sample.

Definition speechBuffer : AudioBuffer := {| duration := Q2Qc 10; pcm := 7 |}.

Definition notice : string := "안전모를 착용하십시오".

Definition longText : string :=
  string_of_list_ascii (repeat "a"%char (MAX_INPUT_LENGTH + 1)).

(** A browser with no API key: [.txt] files can be read, every remote
    request fails. *)
Definition offline : Backend :=
  {| API_KEY := None;
     fileToArrayBuffer := fun _ => Rejected "NotReadableError";
     fileToText := fun f => if blob f =? 1 then Resolved longText else Resolved notice;
     fileToBase64 := fun _ => Rejected "NotReadableError";
     mammoth_extractRawText := fun _ => Rejected "Could not find file in options";
     readXlsxFile := fun _ => Rejected "invalid zip data";
     generateContent_pdf := fun _ => Rejected "fetch failed";
     generateContent_translate := fun _ _ => Rejected "fetch failed";
     generateContent_tts := fun _ => Rejected "fetch failed";
     decodeBase64 := fun _ => Rejected "InvalidCharacterError";
     decodeAudioData := fun _ => Rejected "EncodingError" |}.

(** A browser with a key and services that answer. *)
Definition online : Backend :=
  {| API_KEY := Some "AIzaSyExampleKey";
     fileToArrayBuffer := fun f => Resolved (blob f);
     fileToText := fun f => if blob f =? 1 then Resolved longText else Resolved notice;
     fileToBase64 := fun _ => Resolved "JVBERi0xLjQ=";
     mammoth_extractRawText := fun _ => Resolved notice;
     readXlsxFile := fun _ => Resolved [[notice]];
     generateContent_pdf := fun _ => Resolved (Some notice);
     generateContent_translate := fun _ _ => Resolved (Some "请佩戴安全帽");
     generateContent_tts := fun _ => Resolved (Some "UklGRg==");
     decodeBase64 := fun _ => Resolved 7;
     decodeAudioData := fun _ => Resolved speechBuffer |}.

Definition fileItem (i : string) (f : File) (lang : TargetLanguage) : QueueItem :=
  {| id := i;
     file := Some f;
     fileName := name f;
     originalText := "";
     translatedText := None;
     targetLanguage := lang;
     status := Idle;
     error := None;
     audioBuffer := None |}.

Definition textItem (i : string) (text : string) (lang : TargetLanguage) : QueueItem :=
  {| id := i;
     file := None;
     fileName := "직접 입력한 텍스트";
     originalText := text;
     translatedText := None;
     targetLanguage := lang;
     status := Idle;
     error := None;
     audioBuffer := None |}.

Definition hwpFile : File := {| name := "notice.hwp"; size := 2048; blob := 0 |}.
Definition txtFile : File := {| name := "notice.txt"; size := 64; blob := 0 |}.
Definition longFile : File := {| name := "manual.txt"; size := 10001; blob := 1 |}.
Definition hugeFile : File := {| name := "drawings.pdf"; size := 4194304; blob := 2 |}.

Definition withItems (q : list QueueItem) (running : bool) : AppState :=
  {| queue := q;
     selectedLanguage := CHINESE;
     isProcessingQueue := running;
     currentItemId := None;
     globalError := None;
     autoPlay := true |}.

(** Two waiting items, the first of which cannot be extracted; the user
    presses the start button. *)
Definition twoItems : list QueueItem :=
  [fileItem "f1" hwpFile CHINESE; textItem "t2" notice KOREAN].

Definition started : World := toggleProcessing (atRest (withItems twoItems false)).

(** The same with a first item that can be processed. *)
Definition twoGoodItems : list QueueItem :=
  [fileItem "f1" txtFile CHINESE; textItem "t2" notice KOREAN].

Definition startedGood : World :=
  toggleProcessing (atRest (withItems twoGoodItems false)).

(** One Korean text item is enqueued, goes through the pipeline and gets
    its audio. *)
Definition processed : list Event :=
  [Dispatch (AddToQueue [textItem "a" notice KOREAN]);
   Dispatch (UpdateItemStatus "a" (setStatus Translating));
   Dispatch (UpdateItemStatus "a" (setTranslatedText notice));
   Dispatch (UpdateItemStatus "a" (setStatus Speaking));
   Dispatch (UpdateItemStatus "a" (setCompleted (Some speechBuffer)))].

(** The user then presses play at 0 s, pause at 4 s and resume at 4 s. *)
Definition playThenPauseThenResume : list Event :=
  (processed ++ [ClickPlay 0 (Q2Qc 0); ClickPlay 0 (Q2Qc 4); ClickPlay 0 (Q2Qc 4)])%list.

(** The item is playing since 0 s. *)
Definition playing : Ui := handleAll (processed ++ [ClickPlay 0 (Q2Qc 0)])%list initialUi.

End Sample.

(** More sample data. *)
Module Fixture.

Definition pngFile : File := {| name := "photo.png"; size := 512; blob := 3 |}.
Definition docxFile : File := {| name := "Manual.DOCX"; size := 900; blob := 4 |}.

(** A text file that has been read, translated and spoken. *)
Definition doneItem : QueueItem :=
  {| id := "f1";
     file := Some Sample.txtFile;
     fileName := "notice.txt";
     originalText := Sample.notice;
     translatedText := Some "请佩戴安全帽";
     targetLanguage := CHINESE;
     status := Completed;
     error := None;
     audioBuffer := Some Sample.speechBuffer |}.

Definition genId (k : nat) : string := String (ascii_of_nat (97 + k)) "".

(** The run for [notice.hwp] with the extraction stage reached: what has
    been done and what is still to come. *)
Definition hwpRun : list Action :=
  fst (pipeline (geminiService Sample.offline) (Sample.fileItem "f1" Sample.hwpFile CHINESE)).

Definition hwpDone : list Action := firstn 2 hwpRun.

Definition hwpRest : list Action := (skipn 2 hwpRun ++ [SetTimeout 100])%list.

(** The item of [doneItem] playing since 0 s. *)
Definition playingDone : Player :=
  playAudio Sample.speechBuffer "f1" false (Q2Qc 0) initialPlayer.

(** The world the start button and one successful run leave behind. *)
Definition stalled : World := run (geminiService Sample.online) 3 Sample.startedGood.

End Fixture.

(* ================================================================== *)
(** * Proof steps that recur *)

(** Unfold the stages of the pipeline down to lists of actions. *)
Ltac unfold_pipeline :=
  unfold pipeline, synthesis, translation, guards, extraction,
    updateItemStatus, perform, await, bind, catch, ret, throw.

(** Case analysis on every answer of the gateway and on every test. *)
Ltac split_run :=
  repeat match goal with
    | |- context [match needsExtraction ?x with _ => _ end] =>
        destruct (needsExtraction x) eqn:?
    | |- context [match gw_extract ?g ?f with _ => _ end] =>
        destruct (gw_extract g f) eqn:?
    | |- context [match gw_translate ?g ?t ?l with _ => _ end] =>
        destruct (gw_translate g t l) eqn:?
    | |- context [match gw_speech ?g ?t with _ => _ end] =>
        destruct (gw_speech g t) eqn:?
    | |- context [if ?b then _ else _] => destruct b eqn:?
    end.

(** Reduce [itemAfter] over an explicit run, for an item that carries the
    identifier the run is addressed to ([H : id item = id nextItem]). *)
Ltac same_id H :=
  cbn [itemAfter fst List.app];
  rewrite <- ?H;
  unfold updateItem;
  repeat (rewrite String.eqb_refl; cbn [id merge]).

(* ================================================================== *)
(** * Strings *)

Lemma truthy_trim (text : string) :
  JS.truthy (JS.trim text) = true -> JS.truthy text = true.
Proof.
  destruct text as [|c text]; [discriminate | reflexivity].
Qed.

Lemma truthy_nonempty (s : string) : JS.truthy s = true <-> s <> "".
Proof.
  unfold JS.truthy. rewrite negb_true_iff. apply String.eqb_neq.
Qed.

(* ================================================================== *)
(** * Runs that rewrite items in place *)

Lemma id_merge (item : QueueItem) (updates : Partial) :
  id (merge item updates) = id item.
Proof. reflexivity. Qed.

Lemma id_updateItem (i : string) (updates : Partial) (item : QueueItem) :
  id (updateItem i updates item) = id item.
Proof.
  unfold updateItem. destruct (String.eqb (id item) i); reflexivity.
Qed.

Lemma updateItem_hit (i : string) (updates : Partial) (item : QueueItem) :
  id item = i -> updateItem i updates item = merge item updates.
Proof.
  intros <-. unfold updateItem. now rewrite String.eqb_refl.
Qed.

Lemma updateItem_miss (i : string) (updates : Partial) (item : QueueItem) :
  id item <> i -> updateItem i updates item = item.
Proof.
  intros Hne. unfold updateItem.
  destruct (String.eqb_spec (id item) i); [contradiction | reflexivity].
Qed.

Lemma id_itemAfter (acts : list Action) (item : QueueItem) :
  id (itemAfter acts item) = id item.
Proof.
  revert item. induction acts as [|a acts IH]; intros item; [reflexivity|].
  destruct a as [u| | |]; simpl; try apply IH.
  destruct u; try apply IH.
  rewrite IH. apply id_updateItem.
Qed.

Lemma itemAfter_app (xs ys : list Action) (item : QueueItem) :
  itemAfter (xs ++ ys) item = itemAfter ys (itemAfter xs item).
Proof.
  revert item. induction xs as [|a xs IH]; intros item; [reflexivity|].
  destruct a as [u| | |]; simpl; try apply IH.
  destruct u; apply IH.
Qed.

(** A run that only rewrites items leaves the control fields alone and maps
    [itemAfter] over the queue it finds. *)
Lemma commit_inPlace (acts : list Action) (live : AppState) :
  forallb inPlace acts = true ->
  commit acts live = withQueue live (map (itemAfter acts) (queue live)).
Proof.
  revert live. induction acts as [|a acts IH]; intros live Hall.
  - simpl. rewrite map_id. now destruct live.
  - simpl in Hall. apply andb_true_iff in Hall as [Ha Hall].
    destruct a as [u| | |]; simpl; try (now apply IH).
    destruct u; try discriminate.
    rewrite (IH _ Hall). simpl. unfold withQueue. simpl.
    now rewrite map_map.
Qed.

(* ================================================================== *)
(** * The pipeline of one item *)

Lemma pipeline_inPlace (gw : Gateway) (item : QueueItem) :
  forallb inPlace (fst (pipeline gw item)) = true.
Proof.
  unfold_pipeline. split_run; reflexivity.
Qed.

(** The state after a scan that picked [nextItem]. *)
Lemma commit_processNext (gw : Gateway) (state : AppState) (nextItem : QueueItem) :
  isProcessingQueue state = true ->
  findIdle (queue state) = Some nextItem ->
  commit (processNext gw state false) state =
  withQueue (withControl state true (Some (id nextItem)))
            (map (itemAfter (fst (pipeline gw nextItem))) (queue state)).
Proof.
  intros Hrun Hfind. unfold processNext. rewrite Hrun, Hfind. simpl.
  rewrite commit_inPlace.
  - unfold withQueue, withControl. simpl. rewrite Hrun. f_equal.
    apply map_ext. intros item. now rewrite itemAfter_app.
  - rewrite forallb_app, pipeline_inPlace. reflexivity.
Qed.

Lemma guards_pass (item : QueueItem) (text : string) :
  blank text = false -> guards item text = ([], Resolved tt).
Proof.
  unfold blank. rewrite negb_false_iff. intros Hnb.
  unfold guards, bind, ret, throw.
  rewrite (truthy_trim _ Hnb), Hnb. reflexivity.
Qed.

Lemma guards_blank (item : QueueItem) (text : string) :
  blank text = true ->
  exists message, guards item text = ([], Rejected message) /\ JS.truthy message = true.
Proof.
  unfold blank. intros Hb. unfold guards, bind, ret, throw.
  destruct (negb (JS.truthy text) && negb (JS.isSome (file item))).
  - eexists. split; reflexivity.
  - rewrite Hb. eexists. split; reflexivity.
Qed.

Lemma itemAfter_completed (gw : Gateway) (nextItem item : QueueItem)
      (text translated : string) :
  extractionResult gw nextItem = Resolved text ->
  blank text = false ->
  translationResult gw nextItem text = Resolved translated ->
  id item = id nextItem ->
  itemAfter (fst (pipeline gw nextItem)) item =
  merge item (completedWith gw nextItem text translated).
Proof.
  intros Hx Hnb Ht Hid.
  unfold pipeline, extraction, completedWith.
  unfold extractionResult in Hx. unfold translationResult in Ht.
  destruct (needsExtraction nextItem) as [f|] eqn:Hneed.
  - destruct (gw_extract gw f) as [t|m] eqn:Hext; [|discriminate].
    injection Hx as <-.
    unfold updateItemStatus, perform, await, bind, catch, ret.
    rewrite (guards_pass _ _ Hnb).
    unfold translation, synthesis, updateItemStatus, perform, await, bind, catch, ret.
    destruct (TargetLanguage_eqb (targetLanguage nextItem) KOREAN).
    + injection Ht as <-.
      destruct (gw_speech gw (clip t)); same_id Hid; reflexivity.
    + rewrite Ht.
      destruct (gw_speech gw translated); same_id Hid; reflexivity.
  - injection Hx as <-.
    unfold bind, catch, ret.
    rewrite (guards_pass _ _ Hnb).
    unfold translation, synthesis, updateItemStatus, perform, await, bind, catch, ret.
    destruct (TargetLanguage_eqb (targetLanguage nextItem) KOREAN).
    + injection Ht as <-.
      destruct (gw_speech gw (originalText nextItem)); same_id Hid; reflexivity.
    + rewrite Ht.
      destruct (gw_speech gw translated); same_id Hid; reflexivity.
Qed.

(** The items of the queue after a scan are the images of the items before
    it, and the picked item is among them. *)
Lemma queue_after_scan (gw : Gateway) (state : AppState) (nextItem : QueueItem) :
  isProcessingQueue state = true ->
  findIdle (queue state) = Some nextItem ->
  let final := commit (processNext gw state false) state in
  In (itemAfter (fst (pipeline gw nextItem)) nextItem) (queue final) /\
  forall item, In item (queue final) ->
    exists before, In before (queue state) /\ id before = id item /\
                   item = itemAfter (fst (pipeline gw nextItem)) before.
Proof.
  intros Hrun Hfind final. subst final.
  rewrite (commit_processNext gw _ _ Hrun Hfind). simpl. split.
  - apply in_map. unfold findIdle in Hfind. now apply find_some in Hfind.
  - intros item Hin. apply in_map_iff in Hin as [before [<- Hin]].
    exists before. repeat split; [assumption | now rewrite id_itemAfter].
Qed.

Lemma calls_app (xs ys : list Action) : calls (xs ++ ys) = (calls xs ++ calls ys)%list.
Proof.
  induction xs as [|a xs IH]; [reflexivity|].
  destruct a; simpl; now rewrite ?IH.
Qed.

Lemma statuses_app (xs ys : list Action) :
  statuses (xs ++ ys) = (statuses xs ++ statuses ys)%list.
Proof.
  induction xs as [|a xs IH]; [reflexivity|].
  destruct a as [u| | |]; simpl; try exact IH.
  destruct u; simpl; try exact IH.
  destruct (p_status updates); simpl; now rewrite IH.
Qed.

Lemma calls_processNext (gw : Gateway) (state : AppState) (nextItem : QueueItem) :
  isProcessingQueue state = true ->
  findIdle (queue state) = Some nextItem ->
  calls (processNext gw state false) = calls (fst (pipeline gw nextItem)).
Proof.
  intros Hrun Hfind. unfold processNext. rewrite Hrun, Hfind. simpl.
  rewrite calls_app. simpl. apply app_nil_r.
Qed.

Lemma statuses_processNext (gw : Gateway) (state : AppState) (nextItem : QueueItem) :
  isProcessingQueue state = true ->
  findIdle (queue state) = Some nextItem ->
  statuses (processNext gw state false) = statuses (fst (pipeline gw nextItem)).
Proof.
  intros Hrun Hfind. unfold processNext. rewrite Hrun, Hfind. simpl.
  rewrite statuses_app. simpl. apply app_nil_r.
Qed.

(** The calls of a run whose first stage leaves [text], not blank. *)
Lemma calls_pipeline (gw : Gateway) (nextItem : QueueItem) (text : string) :
  extractionResult gw nextItem = Resolved text ->
  blank text = false ->
  calls (fst (pipeline gw nextItem)) =
  (match needsExtraction nextItem with
   | Some f => [ExtractTextFromFile f]
   | None => []
   end ++
   if TargetLanguage_eqb (targetLanguage nextItem) KOREAN
   then [Delay 300; GenerateSpeech text]
   else TranslateSafetyText text (targetLanguage nextItem) ::
        match gw_translate gw text (targetLanguage nextItem) with
        | Resolved translated => [GenerateSpeech translated]
        | Rejected _ => []
        end)%list.
Proof.
  intros Hx Hnb. unfold pipeline, extraction. unfold extractionResult in Hx.
  destruct (needsExtraction nextItem) as [f|].
  - destruct (gw_extract gw f) as [t|m]; [|discriminate].
    injection Hx as <-.
    unfold updateItemStatus, perform, await, bind, catch, ret.
    rewrite (guards_pass _ _ Hnb).
    unfold translation, synthesis, updateItemStatus, perform, await, bind, catch, ret.
    destruct (TargetLanguage_eqb (targetLanguage nextItem) KOREAN).
    + destruct (gw_speech gw (clip t)); reflexivity.
    + destruct (gw_translate gw (clip t) (targetLanguage nextItem)) as [tr|m];
        [destruct (gw_speech gw tr)|]; reflexivity.
  - injection Hx as <-.
    unfold bind, catch, ret. rewrite (guards_pass _ _ Hnb).
    unfold translation, synthesis, updateItemStatus, perform, await, bind, catch, ret.
    destruct (TargetLanguage_eqb (targetLanguage nextItem) KOREAN).
    + destruct (gw_speech gw (originalText nextItem)); reflexivity.
    + destruct (gw_translate gw (originalText nextItem) (targetLanguage nextItem)) as [tr|m];
        [destruct (gw_speech gw tr)|]; reflexivity.
Qed.

Lemma TargetLanguage_eqb_eq (a b : TargetLanguage) :
  TargetLanguage_eqb a b = true <-> a = b.
Proof. destruct a, b; simpl; split; congruence. Qed.

(** The text the picked item carries once stage 1 has succeeded. *)
Lemma originalText_after (nextItem : QueueItem) (gw : Gateway) (text : string) :
  extractionResult gw nextItem = Resolved text ->
  match needsExtraction nextItem with
  | Some _ => text
  | None => originalText nextItem
  end = text.
Proof.
  unfold extractionResult. destruct (needsExtraction nextItem); [reflexivity|].
  now intros [= <-].
Qed.

Lemma length_substring0 (n : nat) (s : string) :
  String.length (substring 0 n s) = Nat.min n (String.length s).
Proof.
  revert s. induction n as [|n IH]; intros [|c s]; simpl; try reflexivity.
  now rewrite IH.
Qed.

Lemma prefix_substring0 (n : nat) (s : string) :
  String.prefix (substring 0 n s) s = true.
Proof.
  revert s. induction n as [|n IH]; intros [|c s]; simpl; try reflexivity.
  destruct (ascii_dec c c); [apply IH | contradiction].
Qed.

Lemma clip_short (t : string) :
  String.length t <= MAX_INPUT_LENGTH -> clip t = t.
Proof.
  intros Hle. unfold clip.
  destruct (Nat.ltb_spec MAX_INPUT_LENGTH (String.length t)); [lia | reflexivity].
Qed.

Lemma clip_long (t : string) :
  MAX_INPUT_LENGTH < String.length t ->
  clip t = JS.slice0 MAX_INPUT_LENGTH t /\
  String.length (clip t) = MAX_INPUT_LENGTH /\
  String.prefix (clip t) t = true.
Proof.
  intros Hlt. unfold clip.
  destruct (Nat.ltb_spec MAX_INPUT_LENGTH (String.length t)); [|lia].
  unfold JS.slice0. repeat split.
  - rewrite length_substring0. lia.
  - apply prefix_substring0.
Qed.

(** The statuses a run writes once stage 1 has left a text that is not
    blank: the item goes on to translation. *)
Lemma statuses_reach_translating (gw : Gateway) (nextItem : QueueItem) (text : string) :
  extractionResult gw nextItem = Resolved text ->
  blank text = false ->
  In Translating (statuses (fst (pipeline gw nextItem))).
Proof.
  intros Hx Hnb. unfold pipeline, extraction. unfold extractionResult in Hx.
  destruct (needsExtraction nextItem) as [f|].
  - destruct (gw_extract gw f) as [t|m]; [|discriminate].
    injection Hx as <-.
    unfold updateItemStatus, perform, await, bind, catch, ret.
    rewrite (guards_pass _ _ Hnb).
    unfold translation, synthesis, updateItemStatus, perform, await, bind, catch, ret.
    destruct (TargetLanguage_eqb (targetLanguage nextItem) KOREAN).
    + destruct (gw_speech gw (clip t)); simpl; tauto.
    + destruct (gw_translate gw (clip t) (targetLanguage nextItem)) as [tr|m];
        [destruct (gw_speech gw tr)|]; simpl; tauto.
  - injection Hx as <-.
    unfold bind, catch, ret. rewrite (guards_pass _ _ Hnb).
    unfold translation, synthesis, updateItemStatus, perform, await, bind, catch, ret.
    destruct (TargetLanguage_eqb (targetLanguage nextItem) KOREAN).
    + destruct (gw_speech gw (originalText nextItem)); simpl; tauto.
    + destruct (gw_translate gw (originalText nextItem) (targetLanguage nextItem)) as [tr|m];
        [destruct (gw_speech gw tr)|]; simpl; tauto.
Qed.

(** Whatever happens after a successful extraction, the clipped text stays
    in the item. *)
Lemma originalText_stored (gw : Gateway) (nextItem item : QueueItem)
      (f : File) (extracted : string) :
  needsExtraction nextItem = Some f ->
  gw_extract gw f = Resolved extracted ->
  id item = id nextItem ->
  originalText (itemAfter (fst (pipeline gw nextItem)) item) = clip extracted.
Proof.
  intros Hneed Hext Hid.
  unfold_pipeline. rewrite Hneed, Hext.
  split_run; same_id Hid; reflexivity.
Qed.

Lemma clip_idempotent (t : string) : clip (clip t) = clip t.
Proof.
  destruct (Nat.ltb_spec MAX_INPUT_LENGTH (String.length t)) as [Hlt|Hle].
  - apply clip_short. destruct (clip_long t Hlt) as [_ [Hlen _]]. lia.
  - rewrite (clip_short t Hle). now apply clip_short.
Qed.

(** A gateway that returns a long text and one that returns its clipped
    prefix produce the same run. *)
Lemma pipeline_of_prefix (gw gw' : Gateway) (nextItem : QueueItem)
      (f : File) (extracted : string) :
  needsExtraction nextItem = Some f ->
  gw_extract gw f = Resolved extracted ->
  gw_extract gw' f = Resolved (clip extracted) ->
  gw_translate gw' = gw_translate gw ->
  gw_speech gw' = gw_speech gw ->
  pipeline gw' nextItem = pipeline gw nextItem.
Proof.
  intros Hneed Hext Hext' Htr Hsp.
  unfold pipeline, extraction. rewrite Hneed.
  unfold await. rewrite Hext, Hext'.
  cbn [updateItemStatus perform bind catch ret].
  rewrite clip_idempotent.
  unfold translation, synthesis, await. rewrite Htr, Hsp. reflexivity.
Qed.

(** C9.  Long documents are clipped, not refused.  The text stored as
    [originalText] after a successful extraction is [clip extracted]: when
    the extracted text is longer than [MAX_INPUT_LENGTH] it is the prefix of
    exactly that length, and the run is the run the prefix itself would have
    had, so the item goes on to translation unless the prefix is blank; when
    the text is not longer, it is stored as it is. *)
Theorem long_documents_are_clipped
  (gw : Gateway) (state : AppState) (nextItem : QueueItem)
  (f : File) (extracted : string) :
  isProcessingQueue state = true ->
  findIdle (queue state) = Some nextItem ->
  needsExtraction nextItem = Some f ->
  gw_extract gw f = Resolved extracted ->
  let acts := processNext gw state false in
  let final := commit acts state in
  let stored := clip extracted in
  (exists item, In item (queue final) /\ id item = id nextItem) /\
  (forall item, In item (queue final) -> id item = id nextItem ->
     originalText item = stored) /\
  (MAX_INPUT_LENGTH < String.length extracted ->
     String.length stored = MAX_INPUT_LENGTH /\
     String.prefix stored extracted = true /\
     (forall gw',
        gw_extract gw' f = Resolved stored ->
        gw_translate gw' = gw_translate gw ->
        gw_speech gw' = gw_speech gw ->
        processNext gw' state false = acts) /\
     (blank stored = false -> In Translating (statuses acts))) /\
  (String.length extracted <= MAX_INPUT_LENGTH -> stored = extracted).
Proof.
  intros Hrun Hfind Hneed Hext acts final stored. subst acts final stored.
  destruct (queue_after_scan gw _ _ Hrun Hfind) as [Himg Hall].
  split; [|split; [|split]].
  - eexists. split; [exact Himg | apply id_itemAfter].
  - intros item Hin Hid.
    destruct (Hall item Hin) as [before [_ [Hsame ->]]].
    apply (originalText_stored gw nextItem before f extracted Hneed Hext).
    now rewrite Hsame.
  - intros Hlong. destruct (clip_long extracted Hlong) as [_ [Hlen Hprefix]].
    split; [exact Hlen|]. split; [exact Hprefix|]. split.
    + intros gw' Hext' Htr Hsp. unfold processNext. rewrite Hrun, Hfind.
      now rewrite (pipeline_of_prefix gw gw' nextItem f extracted Hneed Hext Hext' Htr Hsp).
    + intros Hnb. rewrite (statuses_processNext gw _ _ Hrun Hfind).
      apply statuses_reach_translating with (text := clip extracted); [|exact Hnb].
      unfold extractionResult. now rewrite Hneed, Hext.
  - apply clip_short.
Qed.

(* ================================================================== *)
(** * The scan *)

Lemma ProcessStatus_eqb_eq (a b : ProcessStatus) :
  ProcessStatus_eqb a b = true <-> a = b.
Proof. destruct a, b; simpl; split; congruence. Qed.

Lemma findIdle_first (pre post : list QueueItem) (x : QueueItem) :
  Forall (fun y => status y <> Idle) pre ->
  status x = Idle ->
  findIdle (pre ++ x :: post) = Some x.
Proof.
  intros Hpre Hx. unfold findIdle.
  induction Hpre as [|y pre Hy _ IH]; simpl.
  - now rewrite Hx.
  - destruct (ProcessStatus_eqb (status y) Idle) eqn:E; [|exact IH].
    apply ProcessStatus_eqb_eq in E. contradiction.
Qed.

Lemma findIdle_none (q : list QueueItem) :
  Forall (fun y => status y <> Idle) q -> findIdle q = None.
Proof.
  intros Hq. unfold findIdle.
  induction Hq as [|y q Hy _ IH]; simpl; [reflexivity|].
  destruct (ProcessStatus_eqb (status y) Idle) eqn:E; [|exact IH].
  apply ProcessStatus_eqb_eq in E. contradiction.
Qed.

(** Every item update of a pipeline is addressed to the item it runs for. *)
Lemma pipeline_targets (gw : Gateway) (item : QueueItem) (i : string) (updates : Partial) :
  In (SetState (UpdateItemStatus i updates)) (fst (pipeline gw item)) ->
  i = id item.
Proof.
  unfold_pipeline. split_run; simpl; intuition congruence.
Qed.

(** C4.  The scan.  While the processor is running, a scan picks the
    first item of the queue, in insertion order, whose status is [Idle]:
    every item before the picked one is not idle, the picked one is, and
    all item updates of the run are addressed to it.  When no item is idle
    the scan only stops the processor: [isProcessingQueue] becomes false,
    [currentItemId] is cleared and no timer is armed. *)
Theorem scan_picks_first_idle (gw : Gateway) (state : AppState) :
  isProcessingQueue state = true ->
  let acts := processNext gw state false in
  (forall pre x post,
      queue state = (pre ++ x :: post)%list ->
      Forall (fun y => status y <> Idle) pre ->
      status x = Idle ->
      (exists rest,
          acts = SetState (SetCurrentItemId (id x)) :: rest /\
          forall i updates,
            In (SetState (UpdateItemStatus i updates)) rest -> i = id x) /\
      currentItemId (commit acts state) = Some (id x) /\
      isProcessingQueue (commit acts state) = true) /\
  (Forall (fun y => status y <> Idle) (queue state) ->
     acts = [SetState StopProcessing] /\
     isProcessingQueue (commit acts state) = false /\
     currentItemId (commit acts state) = None).
Proof.
  intros Hrun acts. split.
  - intros pre x post Hq Hpre Hx.
    assert (Hfind : findIdle (queue state) = Some x)
      by (rewrite Hq; now apply findIdle_first).
    subst acts. rewrite (commit_processNext gw _ _ Hrun Hfind).
    unfold processNext. rewrite Hrun, Hfind. simpl. repeat split.
    eexists. split; [reflexivity|].
    intros i updates Hin. apply in_app_or in Hin as [Hin|Hin].
    + now apply pipeline_targets in Hin.
    + destruct Hin as [Hin|[]]. discriminate.
  - intros Hnone. subst acts. unfold processNext.
    rewrite Hrun, (findIdle_none _ Hnone). simpl. now repeat split.
Qed.

(* ================================================================== *)
(** * Hard failures *)

(** The merged updates of a run that ends in the outer [catch]. *)
Lemma itemAfter_extraction_fails (gw : Gateway) (nextItem item : QueueItem)
      (message : string) :
  extractionResult gw nextItem = Rejected message ->
  id item = id nextItem ->
  itemAfter (fst (pipeline gw nextItem)) item =
    merge item (setError ("파일 읽기 실패: " ++ message)) /\
  calls (fst (pipeline gw nextItem)) =
    match needsExtraction nextItem with
    | Some f => [ExtractTextFromFile f]
    | None => []
    end.
Proof.
  intros Hx Hid. unfold extractionResult in Hx.
  unfold_pipeline.
  destruct (needsExtraction nextItem) as [f|]; [|discriminate].
  destruct (gw_extract gw f) as [t|m]; [discriminate|].
  injection Hx as <-. split; [|reflexivity].
  same_id Hid. reflexivity.
Qed.

Lemma itemAfter_guard_hit (gw : Gateway) (nextItem item : QueueItem) (text : string) :
  extractionResult gw nextItem = Resolved text ->
  blank text = true ->
  id item = id nextItem ->
  (exists message,
      JS.truthy message = true /\
      itemAfter (fst (pipeline gw nextItem)) item =
        merge (match needsExtraction nextItem with
               | Some _ => merge item (setOriginalText text)
               | None => item
               end) (setError message)) /\
  calls (fst (pipeline gw nextItem)) =
    match needsExtraction nextItem with
    | Some f => [ExtractTextFromFile f]
    | None => []
    end.
Proof.
  intros Hx Hb Hid. unfold extractionResult in Hx.
  destruct (guards_blank nextItem text Hb) as [message [Hg Hm]].
  unfold pipeline, extraction.
  destruct (needsExtraction nextItem) as [f|].
  - destruct (gw_extract gw f) as [t|m]; [|discriminate].
    injection Hx as <-.
    unfold updateItemStatus, perform, await, bind, catch, ret.
    rewrite Hg. split; [|reflexivity].
    exists message. split; [exact Hm|]. same_id Hid. reflexivity.
  - injection Hx as <-.
    unfold updateItemStatus, perform, await, bind, catch, ret.
    rewrite Hg. split; [|reflexivity].
    exists message. split; [exact Hm|]. same_id Hid. reflexivity.
Qed.

Lemma itemAfter_translation_fails (gw : Gateway) (nextItem item : QueueItem)
      (text message : string) :
  extractionResult gw nextItem = Resolved text ->
  blank text = false ->
  translationResult gw nextItem text = Rejected message ->
  id item = id nextItem ->
  itemAfter (fst (pipeline gw nextItem)) item =
    merge (match needsExtraction nextItem with
           | Some _ => merge item (setOriginalText text)
           | None => item
           end) (setError message) /\
  existsb isSpeechCall (calls (fst (pipeline gw nextItem))) = false.
Proof.
  intros Hx Hnb Ht Hid. split.
  - unfold extractionResult in Hx. unfold translationResult in Ht.
    destruct (TargetLanguage_eqb (targetLanguage nextItem) KOREAN) eqn:Hko;
      [discriminate|].
    unfold pipeline, extraction.
    destruct (needsExtraction nextItem) as [f|].
    + destruct (gw_extract gw f) as [t|m]; [|discriminate].
      injection Hx as <-.
      unfold updateItemStatus, perform, await, bind, catch, ret.
      rewrite (guards_pass _ _ Hnb).
      unfold translation, updateItemStatus, perform, await, bind, catch, ret.
      rewrite Hko, Ht. same_id Hid. reflexivity.
    + injection Hx as <-.
      unfold bind, catch, ret. rewrite (guards_pass _ _ Hnb).
      unfold translation, updateItemStatus, perform, await, bind, catch, ret.
      rewrite Hko, Ht. same_id Hid. reflexivity.
  - rewrite (calls_pipeline gw _ _ Hx Hnb).
    unfold translationResult in Ht.
    destruct (TargetLanguage_eqb (targetLanguage nextItem) KOREAN); [discriminate|].
    rewrite Ht. destruct (needsExtraction nextItem); reflexivity.
Qed.

(** The statuses of a run that reaches the end of stage 3. *)
Lemma statuses_completed (gw : Gateway) (nextItem : QueueItem) (text translated : string) :
  extractionResult gw nextItem = Resolved text ->
  blank text = false ->
  translationResult gw nextItem text = Resolved translated ->
  statuses (fst (pipeline gw nextItem)) =
  (match needsExtraction nextItem with
   | Some _ => [Extracting]
   | None => []
   end ++ [Translating; Speaking; Completed])%list.
Proof.
  intros Hx Hnb Ht. unfold pipeline, extraction.
  unfold extractionResult in Hx. unfold translationResult in Ht.
  destruct (needsExtraction nextItem) as [f|].
  - destruct (gw_extract gw f) as [t|m]; [|discriminate].
    injection Hx as <-.
    unfold updateItemStatus, perform, await, bind, catch, ret.
    rewrite (guards_pass _ _ Hnb).
    unfold translation, synthesis, updateItemStatus, perform, await, bind, catch, ret.
    destruct (TargetLanguage_eqb (targetLanguage nextItem) KOREAN).
    + destruct (gw_speech gw (clip t)); reflexivity.
    + rewrite Ht. destruct (gw_speech gw translated); reflexivity.
  - injection Hx as <-.
    unfold bind, catch, ret. rewrite (guards_pass _ _ Hnb).
    unfold translation, synthesis, updateItemStatus, perform, await, bind, catch, ret.
    destruct (TargetLanguage_eqb (targetLanguage nextItem) KOREAN).
    + destruct (gw_speech gw (originalText nextItem)); reflexivity.
    + rewrite Ht. destruct (gw_speech gw translated); reflexivity.
Qed.

Lemma no_Error_when_completed (gw : Gateway) (state : AppState) (nextItem : QueueItem)
      (text translated : string) :
  isProcessingQueue state = true ->
  findIdle (queue state) = Some nextItem ->
  extractionResult gw nextItem = Resolved text ->
  blank text = false ->
  translationResult gw nextItem text = Resolved translated ->
  ~ In Error (statuses (processNext gw state false)).
Proof.
  intros Hrun Hfind Hx Hnb Ht.
  rewrite (statuses_processNext gw _ _ Hrun Hfind),
          (statuses_completed gw _ _ _ Hx Hnb Ht).
  destruct (needsExtraction nextItem); simpl; intuition discriminate.
Qed.

Lemma commit_app (xs ys : list Action) (live : AppState) :
  commit (xs ++ ys) live = commit ys (commit xs live).
Proof.
  revert live. induction xs as [|a xs IH]; intros live; [reflexivity|].
  destruct a; simpl; apply IH.
Qed.

(** While a run is in flight, every render finds [currentItemId] set: the
    effect starts no second scan.  This is what lets [launch] treat a run
    as one step. *)
Lemma no_scan_during_run (gw : Gateway) (state : AppState) (nextItem : QueueItem)
      (done rest : list Action) :
  isProcessingQueue state = true ->
  findIdle (queue state) = Some nextItem ->
  JS.truthy (id nextItem) = true ->
  processNext gw state false =
    (SetState (SetCurrentItemId (id nextItem)) :: done ++ rest)%list ->
  effectGuard (commit (SetState (SetCurrentItemId (id nextItem)) :: done) state) = false.
Proof.
  intros Hrun Hfind Hid Hacts.
  unfold processNext in Hacts. rewrite Hrun, Hfind in Hacts. simpl in Hacts.
  injection Hacts as Hacts.
  assert (Hin : forallb inPlace done = true).
  { assert (H : forallb inPlace (done ++ rest) = true).
    { rewrite <- Hacts, forallb_app, pipeline_inPlace. reflexivity. }
    rewrite forallb_app in H. now apply andb_true_iff in H. }
  simpl. rewrite (commit_inPlace _ _ Hin).
  unfold effectGuard. simpl. rewrite Hid. apply andb_false_r.
Qed.
(** C1.  Soft failure of speech synthesis.  When the first idle item gets
    through extraction (if it needs one), the guards and translation, and
    [generateSpeech] rejects, the run leaves every queue entry with that
    identifier [Completed], without audio, and with the synthesis-failure
    note as its error; no status written during the run is [Error]. *)
Theorem soft_failure_completes
  (gw : Gateway) (state : AppState) (nextItem : QueueItem)
  (text translated message : string) :
  isProcessingQueue state = true ->
  findIdle (queue state) = Some nextItem ->
  extractionResult gw nextItem = Resolved text ->
  blank text = false ->
  translationResult gw nextItem text = Resolved translated ->
  gw_speech gw translated = Rejected message ->
  let acts := processNext gw state false in
  let final := commit acts state in
  (exists item, In item (queue final) /\ id item = id nextItem) /\
  (forall item, In item (queue final) -> id item = id nextItem ->
     status item = Completed /\
     audioBuffer item = None /\
     error item = Some synthesisFailureNote) /\
  ~ In Error (statuses acts).
Proof.
  intros Hrun Hfind Hx Hnb Ht Hs acts final.
  destruct (queue_after_scan gw _ _ Hrun Hfind) as [Himg Hall].
  fold acts in Himg, Hall. fold final in Himg, Hall. split; [|split].
  - eexists. split; [exact Himg | apply id_itemAfter].
  - intros item Hin Hid.
    destruct (Hall item Hin) as [before [_ [Hsame ->]]].
    rewrite (itemAfter_completed gw nextItem before _ _ Hx Hnb Ht)
      by (now rewrite Hsame).
    unfold completedWith. simpl. rewrite Hs. now repeat split.
  - exact (no_Error_when_completed gw state nextItem text translated Hrun Hfind Hx Hnb Ht).
Qed.
(** C3.  Full success.  When extraction (if needed), translation and
    speech synthesis all succeed, the run leaves the item [Completed], with
    the audio buffer the gateway returned and with no error. *)
Theorem full_success_completes
  (gw : Gateway) (state : AppState) (nextItem : QueueItem)
  (text translated : string) (buffer : AudioBuffer) :
  isProcessingQueue state = true ->
  findIdle (queue state) = Some nextItem ->
  extractionResult gw nextItem = Resolved text ->
  blank text = false ->
  translationResult gw nextItem text = Resolved translated ->
  gw_speech gw translated = Resolved buffer ->
  let final := commit (processNext gw state false) state in
  (exists item, In item (queue final) /\ id item = id nextItem) /\
  (forall item, In item (queue final) -> id item = id nextItem ->
     status item = Completed /\
     audioBuffer item = Some buffer /\
     error item = None).
Proof.
  intros Hrun Hfind Hx Hnb Ht Hs final.
  destruct (queue_after_scan gw _ _ Hrun Hfind) as [Himg Hall].
  fold final in Himg, Hall. split.
  - eexists. split; [exact Himg | apply id_itemAfter].
  - intros item Hin Hid.
    destruct (Hall item Hin) as [before [_ [Hsame ->]]].
    rewrite (itemAfter_completed gw nextItem before _ _ Hx Hnb Ht)
      by (now rewrite Hsame).
    unfold completedWith. simpl. rewrite Hs. now repeat split.
Qed.

(** C8.  Korean is not translated.  For an item whose target language is
    Korean the run awaits no translation call, only the 300 ms delay, and
    the completed item carries its original text as its translation,
    whatever the translation service would have answered; for every other
    language the translation call is awaited with the text and the
    language of the item. *)
Theorem korean_skips_translation
  (gw : Gateway) (state : AppState) (nextItem : QueueItem) (text : string) :
  isProcessingQueue state = true ->
  findIdle (queue state) = Some nextItem ->
  extractionResult gw nextItem = Resolved text ->
  blank text = false ->
  let acts := processNext gw state false in
  let final := commit acts state in
  (targetLanguage nextItem = KOREAN ->
     existsb isTranslateCall (calls acts) = false /\
     In (Delay 300) (calls acts) /\
     (forall item, In item (queue final) -> id item = id nextItem ->
        status item = Completed /\ translatedText item = Some text) /\
     (exists item, In item (queue final) /\ id item = id nextItem /\
        status item = Completed /\
        originalText item = text /\
        translatedText item = Some (originalText item))) /\
  (targetLanguage nextItem <> KOREAN ->
     In (TranslateSafetyText text (targetLanguage nextItem)) (calls acts)).
Proof.
  intros Hrun Hfind Hx Hnb acts final. subst acts final.
  rewrite (calls_processNext gw _ _ Hrun Hfind), (calls_pipeline gw _ _ Hx Hnb).
  destruct (queue_after_scan gw _ _ Hrun Hfind) as [Himg Hall].
  split.
  - intros Hko.
    assert (Ht : translationResult gw nextItem text = Resolved text).
    { unfold translationResult. now rewrite Hko. }
    rewrite Hko. simpl.
    split; [destruct (needsExtraction nextItem); reflexivity|].
    split; [apply in_or_app; right; now left|].
    split.
    + intros item Hin Hid.
      destruct (Hall item Hin) as [before [_ [Hsame ->]]].
      rewrite (itemAfter_completed gw nextItem before _ _ Hx Hnb Ht)
        by (now rewrite Hsame).
      split; reflexivity.
    + eexists. split; [exact Himg|].
      rewrite (itemAfter_completed gw nextItem nextItem _ _ Hx Hnb Ht) by reflexivity.
      unfold completedWith. simpl.
      pose proof (originalText_after nextItem gw text Hx) as Ho.
      destruct (needsExtraction nextItem); simpl; rewrite ?Ho; now repeat split.
  - intros Hne.
    destruct (TargetLanguage_eqb (targetLanguage nextItem) KOREAN) eqn:E.
    + apply TargetLanguage_eqb_eq in E. contradiction.
    + apply in_or_app. right. now left.
Qed.

(** What a hard failure leaves: the item is marked [Error] with a message
    that is not empty, its audio is what it was, and speech synthesis is
    never requested. *)
Theorem hard_failure_marks_error
  (gw : Gateway) (state : AppState) (nextItem : QueueItem) :
  isProcessingQueue state = true ->
  findIdle (queue state) = Some nextItem ->
  HardFailure gw nextItem ->
  let acts := processNext gw state false in
  let final := commit acts state in
  (exists item, In item (queue final) /\ id item = id nextItem) /\
  (forall item, In item (queue final) -> id item = id nextItem ->
     status item = Error /\
     (exists message, error item = Some message /\ JS.truthy message = true) /\
     (exists before, In before (queue state) /\ id before = id item /\
                     audioBuffer item = audioBuffer before /\
                     translatedText item = translatedText before)) /\
  existsb isSpeechCall (calls acts) = false.
Proof.
  intros Hrun Hfind Hfail acts final. subst acts final.
  rewrite (calls_processNext gw _ _ Hrun Hfind).
  destruct (queue_after_scan gw _ _ Hrun Hfind) as [Himg Hall].
  split; [|split].
  - eexists. split; [exact Himg | apply id_itemAfter].
  - intros item Hin Hid.
    destruct (Hall item Hin) as [before [Hbefore [Hsame ->]]].
    assert (Hid' : id before = id nextItem) by (now rewrite Hsame).
    destruct Hfail as [message Hx | text Hx Hb | text message Hx Hnb Ht].
    + destruct (itemAfter_extraction_fails gw nextItem before message Hx Hid')
        as [-> _].
      split; [reflexivity|]. split.
      * eexists. split; reflexivity.
      * exists before. now repeat split.
    + destruct (itemAfter_guard_hit gw nextItem before text Hx Hb Hid')
        as [[message [Hm ->]] _].
      split; [reflexivity|]. split.
      * exists message. unfold setError. simpl. rewrite Hm. now split.
      * exists before. repeat split; try assumption;
          destruct (needsExtraction nextItem); reflexivity.
    + destruct (itemAfter_translation_fails gw nextItem before text message Hx Hnb Ht Hid')
        as [-> _].
      split; [reflexivity|]. split.
      * unfold setError. simpl. destruct (JS.truthy message) eqn:E.
        -- exists message. now split.
        -- eexists. split; reflexivity.
      * exists before. repeat split; try assumption;
          destruct (needsExtraction nextItem); reflexivity.
  - destruct Hfail as [message Hx | text Hx Hb | text message Hx Hnb Ht].
    + destruct (itemAfter_extraction_fails gw nextItem nextItem message Hx eq_refl)
        as [_ ->].
      destruct (needsExtraction nextItem); reflexivity.
    + destruct (itemAfter_guard_hit gw nextItem nextItem text Hx Hb eq_refl)
        as [_ ->].
      destruct (needsExtraction nextItem); reflexivity.
    + apply (itemAfter_translation_fails gw nextItem nextItem text message Hx Hnb Ht eq_refl).
Qed.

(* ================================================================== *)
(** * The driving effect *)

Lemma option_string_eqb_refl (a : option string) : option_string_eqb a a = true.
Proof. destruct a; simpl; [apply String.eqb_refl | reflexivity]. Qed.

Lemma Deps_eqb_refl (d : Deps) : Deps_eqb d d = true.
Proof.
  destruct d as [[p q] c]. simpl.
  now rewrite Bool.eqb_reflx, Nat.eqb_refl, option_string_eqb_refl.
Qed.

Lemma live_setStates (acts : list Action) (w : World) :
  live (setStates acts w) = commit acts (live w) /\
  effectRun (setStates acts w) = effectRun w /\
  effectDeps (setStates acts w) = effectDeps w /\
  timers (setStates acts w) = timers w.
Proof.
  revert w. induction acts as [|a acts IH]; intros w; [now repeat split|].
  destruct a as [u| | |]; simpl; try apply IH.
  destruct (IH (setState u w)) as [H1 [H2 [H3 H4]]]. now repeat split.
Qed.

Lemma step_settled (gw : Gateway) (w : World) :
  effectDeps w = deps w -> step gw w = fireTimer gw w.
Proof.
  intros H. unfold step. rewrite H, Deps_eqb_refl. reflexivity.
Qed.

(** A scan that picks an item whose identifier is not empty changes the
    dependency [state.currentItemId]. *)
Lemma scan_changes_deps (gw : Gateway) (state : AppState) (nextItem : QueueItem) (q : nat) (q' : nat) :
  effectGuard state = true ->
  findIdle (queue state) = Some nextItem ->
  JS.truthy (id nextItem) = true ->
  Deps_eqb
    (isProcessingQueue (commit (processNext gw state false) state), q',
     currentItemId (commit (processNext gw state false) state))
    (isProcessingQueue state, q, currentItemId state) = false.
Proof.
  intros Hguard Hfind Hid. unfold effectGuard in Hguard.
  apply andb_true_iff in Hguard as [Hrun Hcur].
  rewrite (commit_processNext gw _ _ Hrun Hfind). simpl.
  rewrite Hrun. simpl.
  destruct (currentItemId state) as [c|]; simpl.
  - simpl in Hcur. apply negb_true_iff in Hcur.
    unfold JS.truthy in Hcur, Hid.
    apply negb_false_iff, String.eqb_eq in Hcur. subst c.
    apply negb_true_iff in Hid. rewrite Hid. apply andb_false_r.
  - apply andb_false_r.
Qed.

(** The loop stalls.  When a render lets the effect start a scan that picks
    an item (with a non-empty identifier), the run of [processNext] for that
    item is the only one: the render that follows cancels the closure that
    armed the timer, the new effect run finds [currentItemId] set, and the
    timer callback does nothing.  After three steps nothing is pending, and
    the state is the one the single run left. *)
Theorem loop_stalls_after_one_item
  (gw : Gateway) (w : World) (nextItem : QueueItem) :
  Deps_eqb (deps w) (effectDeps w) = false ->
  timers w = [] ->
  effectGuard (live w) = true ->
  findIdle (queue (live w)) = Some nextItem ->
  JS.truthy (id nextItem) = true ->
  live (run gw 3 w) = commit (processNext gw (live w) false) (live w) /\
  quiescent (run gw 3 w) = true /\
  forall n, run gw n (run gw 3 w) = run gw 3 w.
Proof.
  intros Hdeps Htimers Hguard Hfind Hid.
  pose proof Hguard as Hguard'. unfold effectGuard in Hguard'.
  apply andb_true_iff in Hguard' as [Hrun Hcur].
  set (acts := processNext gw (live w) false).
  assert (Harm : armsTimer acts = true).
  { subst acts. unfold processNext. rewrite Hrun, Hfind. simpl.
    unfold armsTimer. rewrite existsb_app. simpl. apply orb_true_r. }
  (* first step: the effect runs and launches the scan *)
  set (w0 := {| live := live w; queueRef := queueRef w; effectRun := S (effectRun w);
                effectDeps := deps w; timers := timers w |}).
  assert (H1 : step gw w = launch gw (S (effectRun w)) (live w) w0).
  { unfold step. rewrite Hdeps. simpl. unfold rerunEffect. now rewrite Hguard. }
  destruct (live_setStates acts w0) as [Hl [Hr [Hd Ht]]].
  set (w1 := step gw w).
  assert (E1 : live w1 = commit acts (live w) /\ effectRun w1 = S (effectRun w) /\
               effectDeps w1 = deps w /\
               timers w1 = [(S (effectRun w), live w)]).
  { subst w1. rewrite H1. unfold launch. simpl. rewrite Nat.eqb_refl. simpl.
    fold acts. rewrite Harm, Hl, Hr, Hd, Ht. simpl. now rewrite Htimers. }
  destruct E1 as [L1 [R1 [D1 T1]]].
  (* second step: the render cancels that closure and starts nothing *)
  assert (Hchg : Deps_eqb (deps w1) (effectDeps w1) = false).
  { rewrite D1. unfold deps. rewrite L1. subst acts.
    now apply scan_changes_deps with (nextItem := nextItem). }
  assert (G1 : effectGuard (live w1) = false).
  { rewrite L1. subst acts. rewrite (commit_processNext gw _ _ Hrun Hfind).
    unfold effectGuard. simpl. rewrite Hid. reflexivity. }
  set (w2 := step gw w1).
  assert (E2 : w2 = {| live := live w1; queueRef := queueRef w1;
                       effectRun := S (S (effectRun w)); effectDeps := deps w1;
                       timers := [(S (effectRun w), live w)] |}).
  { subst w2. unfold step. rewrite Hchg. simpl. unfold rerunEffect.
    now rewrite G1, R1, T1. }
  (* third step: the timer fires for a cancelled closure *)
  set (w3 := step gw w2).
  assert (E3 : w3 = {| live := live w1; queueRef := queueRef w1;
                       effectRun := S (S (effectRun w)); effectDeps := deps w1;
                       timers := [] |}).
  { subst w3. rewrite E2. rewrite step_settled by reflexivity.
    unfold fireTimer. simpl.
    destruct (Nat.eqb_spec (effectRun w) (S (effectRun w))); [lia | reflexivity]. }
  assert (Hfix : step gw w3 = w3).
  { rewrite E3. now rewrite step_settled by reflexivity. }
  change (run gw 3 w) with w3.
  repeat split.
  - rewrite E3. exact L1.
  - rewrite E3. unfold quiescent.
    change (effectDeps _) with (deps w1).
    change (deps {| live := live w1; queueRef := queueRef w1;
                    effectRun := S (S (effectRun w)); effectDeps := deps w1;
                    timers := [] |}) with (deps w1).
    now rewrite Deps_eqb_refl.
  - intros n. induction n as [|n IH]; [reflexivity|]. simpl. now rewrite Hfix.
Qed.

(** A closure that was not cancelled would not help either: its scan reads
    the state it captured, so every item update of its run is addressed to
    the item that state shows as the first idle one, which is the item it
    has just processed. *)
Lemma stale_scan_picks_same_item
      (gw : Gateway) (state : AppState) (nextItem : QueueItem)
      (i : string) (updates : Partial) :
  isProcessingQueue state = true ->
  findIdle (queue state) = Some nextItem ->
  In (SetState (UpdateItemStatus i updates)) (processNext gw state false) ->
  i = id nextItem.
Proof.
  intros Hrun Hfind. unfold processNext. rewrite Hrun, Hfind. simpl.
  intros [Hin|Hin]; [discriminate|].
  apply in_app_or in Hin as [Hin|[Hin|[]]]; [|discriminate].
  now apply pipeline_targets in Hin.
Qed.

(** The stall does not depend on the failure: with services that answer, a
    first item that is read, translated and spoken leaves the second one
    waiting just the same. *)
Example loop_stalls_after_success :
  let gw := geminiService Sample.online in
  map status (queue (live (run gw 3 Sample.startedGood))) = [Completed; Idle] /\
  quiescent (run gw 3 Sample.startedGood) = true.
Proof.
  intros gw.
  destruct (loop_stalls_after_one_item gw Sample.startedGood
              (Sample.fileItem "f1" Sample.txtFile CHINESE))
    as [Hlive [Hquiet _]]; try reflexivity.
  split; [|exact Hquiet].
  rewrite Hlive. vm_compute. reflexivity.
Qed.

(** C2.  The queue [notice.hwp] (cannot be extracted), then a Korean text,
    after the start button.  The first item ends in [Error]; the second one
    stays [Idle] although the processor is still marked running: the timer
    that should continue the loop belongs to a cancelled effect run, the
    later runs find [currentItemId] set, and nothing is pending. *)
Theorem failure_of_one_item_halts_the_queue :
  let gw := geminiService Sample.offline in
  let w := run gw 3 Sample.started in
  map status (queue (live w)) = [Error; Idle] /\
  isProcessingQueue (live w) = true /\
  currentItemId (live w) = Some "f1" /\
  findIdle (queue (live w)) = Some (Sample.textItem "t2" Sample.notice KOREAN) /\
  quiescent w = true /\
  (forall n, run gw n w = w).
Proof.
  intros gw w.
  assert (Hstep : step gw w = w) by (vm_compute; reflexivity).
  split; [|split; [|split; [|split; [|split]]]].
  1-5: vm_compute; reflexivity.
  intros n. induction n as [|n IH]; [reflexivity|].
  simpl. rewrite Hstep. exact IH.
Qed.

(* ================================================================== *)
(** * Playback *)

(** C5.  Pause and resume.  [pauseAudio] adds the time played since
    [startTimeRef] to [offsetRef] and keeps the item; a resume at the same
    clock reading starts the new source at that offset and leaves
    [offsetRef] as it is.  Neither step touches the progress on display, and
    the progress the next frame computes at that instant is the one a frame
    just before the pause would have computed. *)
Theorem pause_resume_keeps_offset
  (p : Player) (s : Source) (buffer : AudioBuffer) (i : string) (now : Qc) :
  audioSourceRef p = Some s ->
  let paused := pauseAudio now p in
  let resumed := playAudio buffer i true now paused in
  (offsetRef paused = (offsetRef p + (now - startTimeRef p))%Qc /\
   playingItemId paused = playingItemId p /\
   isPaused paused = true /\
   audioSourceRef paused = None /\
   animationFrameRef paused = false) /\
  (audioSourceRef resumed =
     Some {| src_buffer := buffer; src_offset := offsetRef paused;
             onended := Some true; emitting := true |} /\
   offsetRef resumed = offsetRef paused /\
   isPaused resumed = false /\
   playingItemId resumed = Some i) /\
  (playbackProgress paused = playbackProgress p /\
   playbackProgress resumed = playbackProgress p /\
   progressAt buffer now resumed = progressAt buffer now p /\
   playbackProgress (updateProgress now resumed) = progressAt buffer now p).
Proof.
  intros Href paused resumed.
  assert (Hprogress : progressAt buffer now resumed = progressAt buffer now p).
  { subst resumed paused. unfold pauseAudio. rewrite Href.
    unfold playAudio, progressAt. simpl.
    (* only [x - x = 0] and [y + 0 = y] are used *)
    replace (now - now)%Qc with (Q2Qc 0) by ring.
    now rewrite Qcplus_0_r. }
  split; [|split; [|split; [|split; [|split]]]].
  - subst paused. unfold pauseAudio. rewrite Href. simpl.
    split; [reflexivity|]. split; [reflexivity|]. split; [reflexivity|].
    split; reflexivity.
  - subst resumed paused. unfold pauseAudio. rewrite Href.
    unfold playAudio. simpl.
    split; [reflexivity|]. split; [reflexivity|]. split; reflexivity.
  - subst paused. unfold pauseAudio. rewrite Href. reflexivity.
  - subst resumed paused. unfold pauseAudio. rewrite Href. reflexivity.
  - exact Hprogress.
  - rewrite <- Hprogress. subst resumed paused. unfold pauseAudio. rewrite Href.
    reflexivity.
Qed.


Lemma option_string_eqb_eq (a b : option string) :
  option_string_eqb a b = true <-> a = b.
Proof.
  destruct a as [x|], b as [y|]; simpl; split; try congruence.
  - intros H. apply String.eqb_eq in H. now subst.
  - intros [= ->]. apply String.eqb_refl.
Qed.


(** A fresh play leaves no source behind: whatever was in [audioSourceRef]
    has been stopped before the new source starts. *)
Lemma playAudio_fresh (buffer : AudioBuffer) (i : string) (now : Qc) (p : Player) :
  playAudio buffer i false now p =
  {| audioSourceRef := Some {| src_buffer := buffer; src_offset := Q2Qc 0;
                               onended := Some (isPaused p); emitting := true |};
     animationFrameRef := true;
     startTimeRef := now;
     offsetRef := Q2Qc 0;
     playingItemId := Some i;
     isPaused := false;
     playbackProgress :=
       if otherItemActive (playingItemId p) i || JS.isSome (audioSourceRef p)
       then Q2Qc 0 else playbackProgress p;
     orphans := orphans p |}.
Proof.
  unfold playAudio. simpl.
  destruct (otherItemActive (playingItemId p) i); simpl.
  - reflexivity.
  - destruct (audioSourceRef p) eqn:E; simpl; rewrite ?E; reflexivity.
Qed.





Lemma not_In_filter_id (i : string) (q : list QueueItem) :
  ~ In i (map id (filter (fun item => negb (String.eqb (id item) i)) q)).
Proof.
  intros Hin. apply in_map_iff in Hin as [item [Hid Hin]].
  apply filter_In in Hin as [_ Hne].
  rewrite Hid, String.eqb_refl in Hne. discriminate.
Qed.


(** A fresh play started from a render that is not paused resets the
    session when its audio ends. *)
Lemma natural_end_resets_fresh_play
      (p : Player) (buffer : AudioBuffer) (i : string) (now : Qc) :
  isPaused p = false ->
  naturalEnd (playAudio buffer i false now p) =
  stopAudio (playAudio buffer i false now p).
Proof.
  intros Hnp. rewrite playAudio_fresh. unfold naturalEnd. simpl.
  rewrite Hnp. reflexivity.
Qed.

(** [pauseAudio] removes the source from [audioSourceRef]: no end-of-audio
    handler is left to run. *)
Lemma pause_leaves_no_handler (p : Player) (now : Qc) :
  audioSourceRef (pauseAudio now p) = None /\
  naturalEnd (pauseAudio now p) = pauseAudio now p.
Proof.
  unfold pauseAudio.
  destruct (audioSourceRef p) eqn:E; unfold naturalEnd; simpl; rewrite ?E; now split.
Qed.

(** The handler of a resumed source belongs to the render in which the item
    was paused: it finds [isPaused] true and resets nothing. *)
Theorem natural_end_after_resume_keeps_session
      (p : Player) (buffer : AudioBuffer) (i : string) (now : Qc) :
  isPaused p = true ->
  let ended := naturalEnd (playAudio buffer i true now p) in
  playingItemId ended = Some i /\
  offsetRef ended = offsetRef p /\
  playbackProgress ended = playbackProgress p /\
  audioSourceRef ended =
    Some {| src_buffer := buffer; src_offset := offsetRef p;
            onended := Some true; emitting := false |}.
Proof.
  intros Hp ended. subst ended. unfold playAudio, naturalEnd. simpl.
  rewrite Hp, Bool.andb_false_r. simpl. now repeat split.
Qed.

(** C6.  Play, pause at 4 s, resume, and the audio plays to its end.  The
    end-of-audio handler of the resumed source was created in the render in
    which the item was paused, so it finds [isPaused] true and does not
    call [stopAudio]: the session keeps its item and its offset, while
    [stopAudio] would have cleared them. *)
Theorem natural_end_after_resume_is_not_a_stop :
  let before := player (handleAll Sample.playThenPauseThenResume initialUi) in
  let ended := naturalEnd before in
  emittingCount before = 1 /\
  playingItemId ended = Some "a" /\
  isPaused ended = false /\
  offsetRef ended = Q2Qc 4 /\
  option_map onended (audioSourceRef ended) = Some (Some true) /\
  option_map emitting (audioSourceRef ended) = Some false /\
  playingItemId (stopAudio before) = None /\
  ended <> stopAudio before.
Proof.
  intros before ended.
  assert (Hid : playingItemId ended = Some "a") by (vm_compute; reflexivity).
  split; [|split; [|split; [|split; [|split; [|split; [|split]]]]]].
  - vm_compute. reflexivity.
  - exact Hid.
  - vm_compute. reflexivity.
  - apply Qc_is_canon. vm_compute. reflexivity.
  - vm_compute. reflexivity.
  - vm_compute. reflexivity.
  - reflexivity.
  - intros Heq. apply (f_equal playingItemId) in Heq.
    rewrite Hid in Heq. discriminate.
Qed.

(* ================================================================== *)
(** * File intake *)

Lemma toLowerCase_app (a b : string) :
  JS.toLowerCase (a ++ b) = JS.toLowerCase a ++ JS.toLowerCase b.
Proof.
  induction a as [|c a IH]; simpl; [reflexivity | now rewrite IH].
Qed.

Lemma length_append (a b : string) :
  String.length (a ++ b) = String.length a + String.length b.
Proof.
  induction a as [|c a IH]; simpl; [reflexivity | now rewrite IH].
Qed.

Lemma length_toLowerCase (s : string) :
  String.length (JS.toLowerCase s) = String.length s.
Proof.
  induction s as [|c s IH]; simpl; [reflexivity | now rewrite IH].
Qed.

Lemma substring_all (s : string) : substring 0 (String.length s) s = s.
Proof.
  induction s as [|c s IH]; simpl; [reflexivity | now rewrite IH].
Qed.

Lemma substring_skip (a b : string) (k : nat) :
  substring (String.length a) k (a ++ b) = substring 0 k b.
Proof.
  induction a as [|c a IH]; simpl; [reflexivity | exact IH].
Qed.

Lemma endsWith_app (a suffix : string) : JS.endsWith (a ++ suffix) suffix = true.
Proof.
  unfold JS.endsWith. rewrite length_append.
  apply andb_true_iff. split.
  - apply Nat.leb_le. lia.
  - replace (String.length a + String.length suffix - String.length suffix)
      with (String.length a) by lia.
    rewrite substring_skip, substring_all. apply String.eqb_refl.
Qed.

Lemma substring_split (m : nat) (s : string) :
  m <= String.length s ->
  s = substring 0 m s ++ substring m (String.length s - m) s.
Proof.
  revert s. induction m as [|m IH]; intros s Hle.
  - simpl. rewrite Nat.sub_0_r, substring_all.
    now destruct s.
  - destruct s as [|c s]; simpl in *; [lia|].
    f_equal. apply IH. lia.
Qed.

Lemma endsWith_split (s suffix : string) :
  JS.endsWith s suffix = true -> exists a, s = a ++ suffix.
Proof.
  unfold JS.endsWith. intros H. apply andb_true_iff in H as [Hle Heq].
  apply Nat.leb_le in Hle. apply String.eqb_eq in Heq.
  remember (String.length suffix) as k eqn:Hk.
  exists (substring 0 (String.length s - k) s).
  rewrite <- Heq.
  pose proof (substring_split (String.length s - k) s) as Hsplit.
  replace (String.length s - (String.length s - k)) with k in Hsplit by lia.
  apply Hsplit. lia.
Qed.

Lemma validExtensions_lowercase (ext : string) :
  In ext FileUtils.validExtensions -> JS.toLowerCase ext = ext.
Proof.
  unfold FileUtils.validExtensions. simpl.
  intros [<-|[<-|[<-|[<-|[<-|[<-|[]]]]]]]; reflexivity.
Qed.

(** A name that ends in a supported extension is accepted, whatever the
    rest of the [File] is. *)
Lemma supported_extension_is_valid (f : File) (ext : string) :
  In ext FileUtils.validExtensions ->
  JS.endsWith (name f) ext = true ->
  FileUtils.isValidFileType f = true.
Proof.
  intros Hin Hends. unfold FileUtils.isValidFileType, JS.some.
  apply existsb_exists. exists ext. split; [exact Hin|].
  destruct (endsWith_split _ _ Hends) as [a ->].
  rewrite toLowerCase_app, (validExtensions_lowercase _ Hin).
  apply endsWith_app.
Qed.

Lemma newFileItems_accepts (genId : nat -> string) (lang : TargetLanguage)
      (files : list File) (f : File) :
  In f files ->
  FileUtils.isValidFileType f = true ->
  forall k, exists item,
    In item (newFileItems genId k lang files) /\
    file item = Some f /\
    fileName item = name f /\
    originalText item = "" /\
    targetLanguage item = lang /\
    status item = Idle.
Proof.
  intros Hin Hvalid. induction files as [|g files IH]; [contradiction|].
  intros k. simpl. destruct Hin as [->|Hin].
  - rewrite Hvalid. eexists. split; [now left|]. now repeat split.
  - destruct (FileUtils.isValidFileType g).
    + destruct (IH Hin (S k)) as [item [Hitem Hrest]].
      exists item. split; [now right | exact Hrest].
    + apply IH, Hin.
Qed.

Lemma newFileItems_resize (genId : nat -> string) (lang : TargetLanguage)
      (bytes : File -> N) (files : list File) :
  forall k,
    newFileItems genId k lang (map (resize bytes) files) =
    map (resizeItem bytes) (newFileItems genId k lang files).
Proof.
  induction files as [|g files IH]; intros k; [reflexivity|].
  simpl. change (FileUtils.isValidFileType (resize bytes g))
    with (FileUtils.isValidFileType g).
  destruct (FileUtils.isValidFileType g); simpl; now rewrite IH.
Qed.

(** C10.  The size of a file is never looked at.  Every file of the list
    whose name ends in a supported extension is enqueued as an idle item,
    whatever its size and whatever [isValidFileSize] says of it; the items
    built from a list of files are the same, file sizes apart, when the
    sizes are changed at will. *)
Theorem file_size_is_never_checked
  (genId : nat -> string) (k : nat) (state : AppState) (files : list File) :
  (forall f ext,
     In f files ->
     In ext FileUtils.validExtensions ->
     JS.endsWith (name f) ext = true ->
     exists items,
       handleFiles genId k state (Some files) = Some (AddToQueue items) /\
       exists item,
         In item items /\
         In item (queue (applyUpdate (AddToQueue items) state)) /\
         file item = Some f /\
         fileName item = name f /\
         status item = Idle) /\
  (forall bytes,
     newFileItems genId k (selectedLanguage state) (map (resize bytes) files) =
     map (resizeItem bytes) (newFileItems genId k (selectedLanguage state) files)).
Proof.
  split.
  - intros f ext Hin Hext Hends.
    pose proof (supported_extension_is_valid f ext Hext Hends) as Hvalid.
    destruct (newFileItems_accepts genId (selectedLanguage state) files f Hin Hvalid k)
      as [item [Hitem [Hfile [Hname [_ [_ Hstatus]]]]]].
    exists (newFileItems genId k (selectedLanguage state) files).
    split.
    + unfold handleFiles.
      destruct (newFileItems genId k (selectedLanguage state) files);
        [contradiction | reflexivity].
    + exists item. repeat split; try assumption.
      simpl. apply in_or_app. now right.
  - intros bytes. apply newFileItems_resize.
Qed.

(* ================================================================== *)
(** * The theorems at sample inputs *)

(** A Korean text of 10001 characters: nothing is translated, the speech
    request is refused for its length, and the item is completed without
    audio. *)
Lemma soft_failure_completes_witness :
  let gw := geminiService Sample.online in
  let nextItem := Sample.textItem "k1" Sample.longText KOREAN in
  let state := Sample.withItems [nextItem] true in
  (isProcessingQueue state = true /\
   findIdle (queue state) = Some nextItem /\
   extractionResult gw nextItem = Resolved Sample.longText /\
   blank Sample.longText = false /\
   translationResult gw nextItem Sample.longText = Resolved Sample.longText /\
   gw_speech gw Sample.longText =
     Rejected "번역된 텍스트가 너무 길어(4000자 초과) 음성으로 변환할 수 없습니다. 내용을 나누어 입력해주세요.") /\
  map status (queue (commit (processNext gw state false) state)) = [Completed] /\
  forall item,
    In item (queue (commit (processNext gw state false) state)) ->
    id item = id nextItem ->
    status item = Completed /\ audioBuffer item = None /\
    error item = Some synthesisFailureNote.
Proof.
  intros gw nextItem state.
  assert (H1 : isProcessingQueue state = true) by reflexivity.
  assert (H2 : findIdle (queue state) = Some nextItem) by reflexivity.
  assert (H3 : extractionResult gw nextItem = Resolved Sample.longText) by reflexivity.
  assert (H4 : blank Sample.longText = false) by (vm_compute; reflexivity).
  assert (H5 : translationResult gw nextItem Sample.longText = Resolved Sample.longText)
    by reflexivity.
  assert (H6 : gw_speech gw Sample.longText =
     Rejected "번역된 텍스트가 너무 길어(4000자 초과) 음성으로 변환할 수 없습니다. 내용을 나누어 입력해주세요.")
    by (vm_compute; reflexivity).
  split; [exact (conj H1 (conj H2 (conj H3 (conj H4 (conj H5 H6)))))|].
  split; [vm_compute; reflexivity|].
  exact (proj1 (proj2 (soft_failure_completes gw state nextItem _ _ _ H1 H2 H3 H4 H5 H6))).
Defined.

(** A text file read, translated into Chinese and spoken. *)
Lemma full_success_completes_witness :
  let gw := geminiService Sample.online in
  let nextItem := Sample.fileItem "f1" Sample.txtFile CHINESE in
  let state := Sample.withItems [nextItem] true in
  (isProcessingQueue state = true /\
   findIdle (queue state) = Some nextItem /\
   extractionResult gw nextItem = Resolved Sample.notice /\
   blank Sample.notice = false /\
   translationResult gw nextItem Sample.notice = Resolved "请佩戴安全帽" /\
   gw_speech gw "请佩戴安全帽" = Resolved Sample.speechBuffer) /\
  forall item,
    In item (queue (commit (processNext gw state false) state)) ->
    id item = id nextItem ->
    status item = Completed /\ audioBuffer item = Some Sample.speechBuffer /\
    error item = None.
Proof.
  intros gw nextItem state.
  assert (H1 : isProcessingQueue state = true) by reflexivity.
  assert (H2 : findIdle (queue state) = Some nextItem) by reflexivity.
  assert (H3 : extractionResult gw nextItem = Resolved Sample.notice)
    by (vm_compute; reflexivity).
  assert (H4 : blank Sample.notice = false) by (vm_compute; reflexivity).
  assert (H5 : translationResult gw nextItem Sample.notice = Resolved "请佩戴安全帽")
    by (vm_compute; reflexivity).
  assert (H6 : gw_speech gw "请佩戴安全帽" = Resolved Sample.speechBuffer)
    by (vm_compute; reflexivity).
  split; [exact (conj H1 (conj H2 (conj H3 (conj H4 (conj H5 H6)))))|].
  exact (proj2 (full_success_completes gw state nextItem _ _ _ H1 H2 H3 H4 H5 H6)).
Defined.

(** A queue whose first idle item is the third one, and a queue with no
    idle item. *)
Lemma scan_picks_first_idle_witness :
  let gw := geminiService Sample.offline in
  let done := merge (Sample.textItem "t0" Sample.notice KOREAN) (setCompleted None) in
  let failed := merge (Sample.fileItem "f1" Sample.hwpFile CHINESE) (setError "x") in
  let waiting := Sample.textItem "t2" Sample.notice KOREAN in
  let later := Sample.textItem "t3" Sample.notice ENGLISH in
  let state := Sample.withItems [done; failed; waiting; later] true in
  let finished := Sample.withItems [done; failed] true in
  (isProcessingQueue state = true /\
   queue state = ([done; failed] ++ waiting :: [later])%list /\
   Forall (fun y => status y <> Idle) [done; failed] /\
   status waiting = Idle /\
   currentItemId (commit (processNext gw state false) state) = Some "t2") /\
  (isProcessingQueue finished = true /\
   Forall (fun y => status y <> Idle) (queue finished) /\
   processNext gw finished false = [SetState StopProcessing] /\
   isProcessingQueue (commit (processNext gw finished false) finished) = false /\
   currentItemId (commit (processNext gw finished false) finished) = None).
Proof.
  intros gw done failed waiting later state finished.
  assert (Hrun : isProcessingQueue state = true) by reflexivity.
  assert (Hq : queue state = ([done; failed] ++ waiting :: [later])%list) by reflexivity.
  assert (Hpre : Forall (fun y => status y <> Idle) [done; failed])
    by (repeat constructor; discriminate).
  assert (Hx : status waiting = Idle) by reflexivity.
  assert (Hrun' : isProcessingQueue finished = true) by reflexivity.
  split.
  - split; [exact Hrun|]. split; [exact Hq|]. split; [exact Hpre|].
    split; [exact Hx|].
    exact (proj1 (proj2
      (proj1 (scan_picks_first_idle gw state Hrun) [done; failed] waiting [later]
             Hq Hpre Hx))).
  - split; [exact Hrun'|]. split; [exact Hpre|].
    exact (proj2 (scan_picks_first_idle gw finished Hrun') Hpre).
Defined.

(** Playing since 0 s, paused and resumed at 4 s. *)
Lemma pause_resume_keeps_offset_witness :
  let p := player Sample.playing in
  let s := {| src_buffer := Sample.speechBuffer; src_offset := Q2Qc 0;
              onended := Some false; emitting := true |} in
  let paused := pauseAudio (Q2Qc 4) p in
  let resumed := playAudio Sample.speechBuffer "a" true (Q2Qc 4) paused in
  audioSourceRef p = Some s /\
  offsetRef paused = (offsetRef p + (Q2Qc 4 - startTimeRef p))%Qc /\
  offsetRef resumed = offsetRef paused /\
  progressAt Sample.speechBuffer (Q2Qc 4) resumed =
  progressAt Sample.speechBuffer (Q2Qc 4) p.
Proof.
  intros p s paused resumed.
  assert (Href : audioSourceRef p = Some s) by reflexivity.
  pose proof (pause_resume_keeps_offset p s Sample.speechBuffer "a" (Q2Qc 4) Href)
    as [[Hoff _] [[_ [Hsame _]] [_ [_ [Hprogress _]]]]].
  exact (conj Href (conj Hoff (conj Hsame Hprogress))).
Defined.


(** A Korean item while no translation service can be reached, and an
    English one. *)
Lemma korean_skips_translation_witness :
  let gw := geminiService Sample.offline in
  let korean := Sample.textItem "t2" Sample.notice KOREAN in
  let english := Sample.textItem "t3" Sample.notice ENGLISH in
  let state := Sample.withItems [korean] true in
  let state' := Sample.withItems [english] true in
  (isProcessingQueue state = true /\
   findIdle (queue state) = Some korean /\
   extractionResult gw korean = Resolved Sample.notice /\
   blank Sample.notice = false /\
   targetLanguage korean = KOREAN) /\
  (existsb isTranslateCall (calls (processNext gw state false)) = false /\
   In (Delay 300) (calls (processNext gw state false)) /\
   exists item,
     In item (queue (commit (processNext gw state false) state)) /\
     id item = id korean /\
     status item = Completed /\
     originalText item = Sample.notice /\
     translatedText item = Some (originalText item)) /\
  (findIdle (queue state') = Some english /\
   targetLanguage english <> KOREAN) /\
  In (TranslateSafetyText Sample.notice ENGLISH) (calls (processNext gw state' false)).
Proof.
  intros gw korean english state state'.
  assert (H1 : isProcessingQueue state = true) by reflexivity.
  assert (H2 : findIdle (queue state) = Some korean) by reflexivity.
  assert (H3 : extractionResult gw korean = Resolved Sample.notice) by reflexivity.
  assert (H4 : blank Sample.notice = false) by (vm_compute; reflexivity).
  assert (H5 : targetLanguage korean = KOREAN) by reflexivity.
  assert (H1' : isProcessingQueue state' = true) by reflexivity.
  assert (H2' : findIdle (queue state') = Some english) by reflexivity.
  assert (H3' : extractionResult gw english = Resolved Sample.notice) by reflexivity.
  assert (H5' : targetLanguage english <> KOREAN) by discriminate.
  destruct (proj1 (korean_skips_translation gw state korean Sample.notice H1 H2 H3 H4) H5)
    as [Hnone [Hdelay [_ Hitem]]].
  split; [exact (conj H1 (conj H2 (conj H3 (conj H4 H5))))|].
  split; [exact (conj Hnone (conj Hdelay Hitem))|].
  split; [exact (conj H2' H5')|].
  exact (proj2 (korean_skips_translation gw state' english Sample.notice H1' H2' H3' H4) H5').
Defined.

(** A text file of 10001 characters. *)
Lemma long_documents_are_clipped_witness :
  let gw := geminiService Sample.offline in
  let nextItem := Sample.fileItem "f9" Sample.longFile KOREAN in
  let state := Sample.withItems [nextItem] true in
  (isProcessingQueue state = true /\
   findIdle (queue state) = Some nextItem /\
   needsExtraction nextItem = Some Sample.longFile /\
   gw_extract gw Sample.longFile = Resolved Sample.longText /\
   MAX_INPUT_LENGTH < String.length Sample.longText /\
   blank (clip Sample.longText) = false) /\
  (forall item,
     In item (queue (commit (processNext gw state false) state)) ->
     id item = id nextItem ->
     originalText item = clip Sample.longText) /\
  String.length (clip Sample.longText) = MAX_INPUT_LENGTH /\
  String.prefix (clip Sample.longText) Sample.longText = true /\
  In Translating (statuses (processNext gw state false)).
Proof.
  intros gw nextItem state.
  assert (H1 : isProcessingQueue state = true) by reflexivity.
  assert (H2 : findIdle (queue state) = Some nextItem) by reflexivity.
  assert (H3 : needsExtraction nextItem = Some Sample.longFile) by reflexivity.
  assert (H4 : gw_extract gw Sample.longFile = Resolved Sample.longText)
    by (vm_compute; reflexivity).
  assert (H5 : MAX_INPUT_LENGTH < String.length Sample.longText)
    by (apply Nat.ltb_lt; vm_compute; reflexivity).
  assert (H6 : blank (clip Sample.longText) = false) by (vm_compute; reflexivity).
  destruct (long_documents_are_clipped gw state nextItem Sample.longFile Sample.longText
              H1 H2 H3 H4) as [_ [Hstored [Hlong _]]].
  destruct (Hlong H5) as [Hlen [Hprefix [_ Hgoes]]].
  split; [exact (conj H1 (conj H2 (conj H3 (conj H4 (conj H5 H6)))))|].
  exact (conj Hstored (conj Hlen (conj Hprefix (Hgoes H6)))).
Defined.

(** A PDF of 4 MiB, above the declared limit of 3 MiB. *)
Lemma file_size_is_never_checked_witness :
  let genId := fun k : nat => String (ascii_of_nat (97 + k)) "" in
  let state := initialState in
  (In Sample.hugeFile [Sample.hugeFile] /\
   In ".pdf" FileUtils.validExtensions /\
   JS.endsWith (name Sample.hugeFile) ".pdf" = true /\
   FileUtils.isValidFileSize Sample.hugeFile = false) /\
  exists items,
    handleFiles genId 0 state (Some [Sample.hugeFile]) = Some (AddToQueue items) /\
    exists item,
      In item items /\
      In item (queue (applyUpdate (AddToQueue items) state)) /\
      file item = Some Sample.hugeFile /\
      fileName item = name Sample.hugeFile /\
      status item = Idle.
Proof.
  intros genId state.
  assert (H1 : In Sample.hugeFile [Sample.hugeFile]) by (left; reflexivity).
  assert (H2 : In ".pdf" FileUtils.validExtensions) by (simpl; tauto).
  assert (H3 : JS.endsWith (name Sample.hugeFile) ".pdf" = true) by reflexivity.
  assert (H4 : FileUtils.isValidFileSize Sample.hugeFile = false) by reflexivity.
  split; [exact (conj H1 (conj H2 (conj H3 H4)))|].
  exact (proj1 (file_size_is_never_checked genId 0 state [Sample.hugeFile])
               Sample.hugeFile ".pdf" H1 H2 H3).
Defined.

(* ================================================================== *)
(** * Beyond the design document: further properties of the code *)

(* ================================================================== *)
(** * The service module *)

Lemma prefix_refl (a : string) : String.prefix a a = true.
Proof.
  induction a as [|c a IH]; [reflexivity|]. simpl.
  destruct (ascii_dec c c); [exact IH | contradiction].
Qed.

Lemma prefix_append (a b : string) : String.prefix a (a ++ b) = true.
Proof.
  induction a as [|c a IH]; simpl; [now destruct b|].
  destruct (ascii_dec c c); [exact IH | contradiction].
Qed.

(** X1.  Every way [generateSpeech] can end.  It resolves only when the
    key is usable, the text has at most 4000 characters, the model returned
    non-empty audio data and both decoding steps succeeded; the buffer is
    the decoded one.  It rejects with the key message, with the length
    message, or with a message that starts with the speech-failure
    text. *)
Theorem generateSpeech_outcomes (b : Backend) (text : string) :
  match GeminiService.generateSpeech b text with
  | Resolved buffer =>
      GeminiService.validateApiKey b = Resolved tt /\
      String.length text <= GeminiService.MAX_SPEECH_LENGTH /\
      exists data audioBytes,
        generateContent_tts b text = Resolved (Some data) /\
        JS.truthy data = true /\
        decodeBase64 b data = Resolved audioBytes /\
        decodeAudioData b audioBytes = Resolved buffer
  | Rejected message =>
      (GeminiService.validateApiKey b = Rejected GeminiService.apiKeyMessage /\
       message = GeminiService.apiKeyMessage) \/
      (GeminiService.MAX_SPEECH_LENGTH < String.length text /\
       message = "번역된 텍스트가 너무 길어(4000자 초과) 음성으로 변환할 수 없습니다. 내용을 나누어 입력해주세요.") \/
      (String.length text <= GeminiService.MAX_SPEECH_LENGTH /\
       String.prefix "음성 생성에 실패했습니다." message = true)
  end.
Proof.
  unfold GeminiService.generateSpeech, GeminiService.andThen, GeminiService.orElse.
  destruct (GeminiService.validateApiKey b) as [[]|m] eqn:Hkey.
  - destruct (Nat.ltb_spec GeminiService.MAX_SPEECH_LENGTH (String.length text)) as [Hlong|Hshort].
    + right. left. now split.
    + assert (Hwrap : forall m,
        String.prefix "음성 생성에 실패했습니다."
          (if JS.truthy m
           then if JS.includes m "400"
                then "음성 생성에 실패했습니다." ++ " (요청 형식이 잘못되었습니다)"
                else if JS.includes m "429"
                     then "음성 생성에 실패했습니다." ++ " (요청이 너무 많습니다)"
                     else "음성 생성에 실패했습니다." ++ " (" ++ m ++ ")"
           else "음성 생성에 실패했습니다.") = true).
      { intros m0. destruct (JS.truthy m0); [|apply prefix_refl].
        destruct (JS.includes m0 "400"); [apply prefix_append|].
        destruct (JS.includes m0 "429"); apply prefix_append. }
      destruct (generateContent_tts b text) as [[data|]|m] eqn:Htts.
      * destruct (JS.truthy data) eqn:Hdata; simpl.
        -- destruct (decodeBase64 b data) as [audioBytes|m] eqn:Hb64.
           ++ destruct (decodeAudioData b audioBytes) as [buffer|m] eqn:Hdec.
              ** split; [reflexivity|]. split; [exact Hshort|].
                 exists data, audioBytes. now repeat split.
              ** right. right. split; [exact Hshort | first [apply Hwrap | vm_compute; reflexivity]].
           ++ right. right. split; [exact Hshort | first [apply Hwrap | vm_compute; reflexivity]].
        -- right. right. split; [exact Hshort | first [apply Hwrap | vm_compute; reflexivity]].
      * right. right. split; [exact Hshort | first [apply Hwrap | vm_compute; reflexivity]].
      * right. right. split; [exact Hshort | first [apply Hwrap | vm_compute; reflexivity]].
  - left. unfold GeminiService.validateApiKey in Hkey |- *.
    destruct (API_KEY b) as [k|].
    + destruct (negb (JS.truthy k) || JS.startsWith k "YOUR_GEMINI" || (k =? "undefined")%string);
        [|discriminate]. injection Hkey as <-. now split.
    + injection Hkey as <-. now split.
Qed.

(** X2.  Every way [translateSafetyText] can end.  It resolves only when
    the key is usable and the model returned a non-empty answer, with that
    answer trimmed; it rejects with the key message, or, once the key has
    passed, with a message that starts with the translation-failure
    prefix. *)
Theorem translateSafetyText_outcomes
        (b : Backend) (text : string) (targetLang : TargetLanguage) :
  match GeminiService.translateSafetyText b text targetLang with
  | Resolved translated =>
      GeminiService.validateApiKey b = Resolved tt /\
      exists answer,
        generateContent_translate b text targetLang = Resolved (Some answer) /\
        answer <> "" /\
        translated = JS.trim answer
  | Rejected message =>
      (GeminiService.validateApiKey b = Rejected GeminiService.apiKeyMessage /\
       message = GeminiService.apiKeyMessage) \/
      (GeminiService.validateApiKey b = Resolved tt /\
       String.prefix "번역 실패: " message = true)
  end.
Proof.
  unfold GeminiService.translateSafetyText, GeminiService.andThen, GeminiService.orElse.
  destruct (GeminiService.validateApiKey b) as [[]|m] eqn:Hkey.
  - destruct (generateContent_translate b text targetLang) as [[answer|]|m] eqn:Hgen.
    + destruct (JS.truthy answer) eqn:Hans.
      * split; [reflexivity|]. exists answer. repeat split.
        intros ->. discriminate.
      * right. split; [reflexivity | apply prefix_append].
    + right. split; [reflexivity | apply prefix_append].
    + right. split; [reflexivity | apply prefix_append].
  - left. unfold GeminiService.validateApiKey in Hkey |- *.
    destruct (API_KEY b) as [k|].
    + destruct (negb (JS.truthy k) || JS.startsWith k "YOUR_GEMINI" || (k =? "undefined")%string);
        [|discriminate]. injection Hkey as <-. now split.
    + injection Hkey as <-. now split.
Qed.


Lemma append_split (p q a b : string) :
  p ++ a = q ++ b ->
  String.length q <= String.length p ->
  exists r, b = r ++ a.
Proof.
  revert p. induction q as [|c q IH]; intros p Heq Hlen.
  - exists p. simpl in Heq. now symmetry.
  - destruct p as [|d p]; simpl in Hlen; [lia|].
    simpl in Heq. injection Heq as _ Heq.
    apply (IH p Heq). lia.
Qed.

(** Two suffixes of one string: the shorter is a suffix of the longer. *)
Lemma endsWith_both (s a b : string) :
  JS.endsWith s a = true ->
  JS.endsWith s b = true ->
  String.length a <= String.length b ->
  JS.endsWith b a = true.
Proof.
  intros Ha Hb Hlen.
  destruct (endsWith_split _ _ Ha) as [p Hp].
  destruct (endsWith_split _ _ Hb) as [q Hq].
  assert (Hpq : p ++ a = q ++ b) by (now rewrite <- Hp, <- Hq).
  assert (Hl : String.length q <= String.length p).
  { apply (f_equal String.length) in Hpq. rewrite !length_append in Hpq. lia. }
  destruct (append_split p q a b Hpq Hl) as [r ->].
  apply endsWith_app.
Qed.

(** A name has at most one of the extensions the service tells apart. *)
Lemma extension_excludes (s a b : string) :
  JS.endsWith s a = true ->
  String.length a <= String.length b ->
  JS.endsWith b a = false ->
  JS.endsWith s b = false.
Proof.
  intros Ha Hlen Hno. destruct (JS.endsWith s b) eqn:Hb; [|reflexivity].
  rewrite (endsWith_both s a b Ha Hb Hlen) in Hno. discriminate.
Qed.

(** X3.  Files that intake accepts and extraction always refuses.  A
    file whose name ends in [.hwp] or [.pptx] (in any letter case) passes
    [isValidFileType], and [extractTextFromFile] rejects it with the
    HWP/PPTX message whatever the backend does; the run for such an item
    ends in [Error] with that message behind the file-reading prefix. *)
Theorem hwp_and_pptx_are_accepted_then_refused (b : Backend) (f : File) :
  JS.endsWith (JS.toLowerCase (name f)) ".hwp" = true \/
  JS.endsWith (JS.toLowerCase (name f)) ".pptx" = true ->
  FileUtils.isValidFileType f = true /\
  GeminiService.extractTextFromFile b f = Rejected GeminiService.hwpMessage /\
  forall state nextItem,
    isProcessingQueue state = true ->
    findIdle (queue state) = Some nextItem ->
    needsExtraction nextItem = Some f ->
    forall item,
      In item (queue (commit (processNext (geminiService b) state false) state)) ->
      id item = id nextItem ->
      status item = Error /\
      error item = Some ("파일 읽기 실패: " ++ GeminiService.hwpMessage).
Proof.
  intros Hext.
  assert (Hrej : GeminiService.extractTextFromFile b f = Rejected GeminiService.hwpMessage).
  { unfold GeminiService.extractTextFromFile.
    destruct Hext as [H|H].
    - assert (H1 : JS.endsWith (JS.toLowerCase (name f)) ".docx" = false) 
        by (apply (extension_excludes _ _ _ H); [simpl; lia | reflexivity]).
      assert (H2 : JS.endsWith (JS.toLowerCase (name f)) ".xlsx" = false) 
        by (apply (extension_excludes _ _ _ H); [simpl; lia | reflexivity]).
      assert (H3 : JS.endsWith (JS.toLowerCase (name f)) ".txt" = false) 
        by (apply (extension_excludes _ _ _ H); [simpl; lia | reflexivity]).
      assert (H4 : JS.endsWith (JS.toLowerCase (name f)) ".pdf" = false) 
        by (apply (extension_excludes _ _ _ H); [simpl; lia | reflexivity]).
      rewrite H1, H2, H3, H4, H. vm_compute. reflexivity.
    - assert (H1 : JS.endsWith (JS.toLowerCase (name f)) ".docx" = false) 
        by (apply (extension_excludes _ _ _ H); [simpl; lia | reflexivity]).
      assert (H2 : JS.endsWith (JS.toLowerCase (name f)) ".xlsx" = false) 
        by (apply (extension_excludes _ _ _ H); [simpl; lia | reflexivity]).
      assert (H3 : JS.endsWith (JS.toLowerCase (name f)) ".txt" = false).
      { destruct (JS.endsWith (JS.toLowerCase (name f)) ".txt") eqn:E; [|reflexivity].
        pose proof (endsWith_both _ _ _ E H) as Hc. simpl in Hc.
        assert (Hn : JS.endsWith ".pptx" ".txt" = false) by reflexivity.
        rewrite Hc in Hn; [discriminate | lia]. }
      assert (H4 : JS.endsWith (JS.toLowerCase (name f)) ".pdf" = false).
      { destruct (JS.endsWith (JS.toLowerCase (name f)) ".pdf") eqn:E; [|reflexivity].
        pose proof (endsWith_both _ _ _ E H) as Hc. simpl in Hc.
        assert (Hn : JS.endsWith ".pptx" ".pdf" = false) by reflexivity.
        rewrite Hc in Hn; [discriminate | lia]. }
      rewrite H1, H2, H3, H4, H, Bool.orb_true_r. vm_compute. reflexivity. }
  split; [|split; [exact Hrej|]].
  - unfold FileUtils.isValidFileType, JS.some, FileUtils.validExtensions. simpl.
    destruct Hext as [H|H]; rewrite H; rewrite ?Bool.orb_true_r; reflexivity.
  - intros state nextItem Hrun Hfind Hneed item Hin Hid.
    destruct (queue_after_scan (geminiService b) _ _ Hrun Hfind) as [_ Hall].
    destruct (Hall item Hin) as [before [_ [Hsame ->]]].
    assert (Hx : extractionResult (geminiService b) nextItem = Rejected GeminiService.hwpMessage).
    { unfold extractionResult. rewrite Hneed. simpl. now rewrite Hrej. }
    destruct (itemAfter_extraction_fails (geminiService b) nextItem before _ Hx) as [-> _];
      [now rewrite Hsame|].
    split; reflexivity.
Qed.


Lemma validateApiKey_rejects (b : Backend) :
  GeminiService.validateApiKey b <> Resolved tt ->
  GeminiService.validateApiKey b = Rejected GeminiService.apiKeyMessage.
Proof.
  unfold GeminiService.validateApiKey. destruct (API_KEY b) as [k|]; [|reflexivity].
  destruct (negb (JS.truthy k) || JS.startsWith k "YOUR_GEMINI" || (k =? "undefined")%string);
    [reflexivity | congruence].
Qed.

(** X4.  What intake would refuse, extraction reports as unsupported: for
    a file that [isValidFileType] rejects, [extractTextFromFile] rejects
    with the unsupported-format message behind the reading-error prefix,
    whatever the backend answers. *)
Theorem refused_types_are_unsupported (b : Backend) (f : File) :
  FileUtils.isValidFileType f = false ->
  GeminiService.extractTextFromFile b f =
  Rejected "파일 내용을 읽는 중 오류가 발생했습니다: 지원되지 않는 파일 형식입니다.".
Proof.
  unfold FileUtils.isValidFileType, JS.some, FileUtils.validExtensions. simpl.
  intros H. repeat (apply Bool.orb_false_elim in H as [? H]).
  unfold GeminiService.extractTextFromFile.
  repeat match goal with E : JS.endsWith _ _ = false |- _ => rewrite E; clear E end.
  vm_compute. reflexivity.
Qed.

(** X5.  Only the PDF branch looks at the API key.  For [.docx], [.xlsx]
    and [.txt] files the outcome of [extractTextFromFile] is the same
    whatever the key is; for a [.pdf] file an unusable key rejects with the
    key message. *)
Theorem only_pdf_extraction_needs_the_key (b : Backend) (f : File) :
  (JS.endsWith (JS.toLowerCase (name f)) ".docx" = true \/
   JS.endsWith (JS.toLowerCase (name f)) ".xlsx" = true \/
   JS.endsWith (JS.toLowerCase (name f)) ".txt" = true ->
   forall key,
     GeminiService.extractTextFromFile (withKey key b) f =
     GeminiService.extractTextFromFile b f) /\
  (JS.endsWith (JS.toLowerCase (name f)) ".pdf" = true ->
   GeminiService.validateApiKey b <> Resolved tt ->
   GeminiService.extractTextFromFile b f = Rejected GeminiService.apiKeyMessage).
Proof.
  split.
  - intros Hext key. unfold GeminiService.extractTextFromFile.
    destruct (JS.endsWith (JS.toLowerCase (name f)) ".docx"); [reflexivity|].
    destruct (JS.endsWith (JS.toLowerCase (name f)) ".xlsx"); [reflexivity|].
    destruct (JS.endsWith (JS.toLowerCase (name f)) ".txt"); [reflexivity|].
    destruct Hext as [H|[H|H]]; discriminate.
  - intros H Hkey. apply validateApiKey_rejects in Hkey.
    assert (H1 : JS.endsWith (JS.toLowerCase (name f)) ".docx" = false) 
        by (apply (extension_excludes _ _ _ H); [simpl; lia | reflexivity]).
    assert (H2 : JS.endsWith (JS.toLowerCase (name f)) ".xlsx" = false) 
        by (apply (extension_excludes _ _ _ H); [simpl; lia | reflexivity]).
    assert (H3 : JS.endsWith (JS.toLowerCase (name f)) ".txt" = false) 
        by (apply (extension_excludes _ _ _ H); [simpl; lia | reflexivity]).
    unfold GeminiService.extractTextFromFile. rewrite H1, H2, H3, H.
    unfold GeminiService.andThen at 1. rewrite Hkey.
    vm_compute. reflexivity.
Qed.


(* ================================================================== *)
(** * The speech limit *)



(* ================================================================== *)
(** * fileUtils.ts: the payload of a data URL *)

Lemma split_without (sep : ascii) (s : string) :
  FileReader.occurs sep s = false -> FileReader.split sep s = [s].
Proof.
  induction s as [|c s IH]; [reflexivity|]. simpl.
  destruct (Ascii.eqb c sep); [discriminate|]. simpl.
  intros H. now rewrite (IH H).
Qed.

Lemma split_at_first (sep : ascii) (a b : string) :
  FileReader.occurs sep a = false ->
  FileReader.split sep (a ++ String sep b) = a :: FileReader.split sep b.
Proof.
  induction a as [|c a IH]; simpl.
  - now rewrite Ascii.eqb_refl.
  - destruct (Ascii.eqb c sep); [discriminate|]. simpl.
    intros H. now rewrite (IH H).
Qed.

(** X8.  The payload of a data URL.  [fileToBase64] resolves with the text
    between the first and the second comma of what the reader produced: for
    [header,payload] with no comma in either part that is the payload, for
    a result without comma it is [undefined], and a reader error rejects
    the promise with that error. *)
Theorem fileToBase64_returns_the_payload
        (readAsDataURL : File -> Result string) (file : File) :
  (forall header payload,
     FileReader.occurs "," header = false ->
     FileReader.occurs "," payload = false ->
     readAsDataURL file = Resolved (header ++ "," ++ payload) ->
     FileReader.fileToBase64 readAsDataURL file = Resolved (Some payload)) /\
  (forall header payload rest,
     FileReader.occurs "," header = false ->
     FileReader.occurs "," payload = false ->
     readAsDataURL file = Resolved (header ++ "," ++ payload ++ "," ++ rest) ->
     FileReader.fileToBase64 readAsDataURL file = Resolved (Some payload)) /\
  (forall result,
     FileReader.occurs "," result = false ->
     readAsDataURL file = Resolved result ->
     FileReader.fileToBase64 readAsDataURL file = Resolved None) /\
  (forall error,
     readAsDataURL file = Rejected error ->
     FileReader.fileToBase64 readAsDataURL file = Rejected error).
Proof.
  unfold FileReader.fileToBase64. split; [|split; [|split]].
  - intros header payload Hh Hp ->.
    change ("," ++ payload) with (String "," payload).
    now rewrite (split_at_first _ _ _ Hh), (split_without _ _ Hp).
  - intros header payload rest Hh Hp ->.
    change ("," ++ payload ++ "," ++ rest) with (String "," (payload ++ String "," rest)).
    now rewrite (split_at_first _ _ _ Hh), (split_at_first _ _ _ Hp).
  - intros result Hr ->. now rewrite (split_without _ _ Hr).
  - now intros error ->.
Qed.

(* ================================================================== *)
(** * Intake *)

Lemma newFileItems_files (genId : nat -> string) (lang : TargetLanguage)
      (files : list File) :
  forall k,
    map file (newFileItems genId k lang files) =
      map Some (filter FileUtils.isValidFileType files) /\
    map id (newFileItems genId k lang files) =
      map genId (seq k (length (filter FileUtils.isValidFileType files))) /\
    Forall (fun item => status item = Idle /\ originalText item = "" /\
                        targetLanguage item = lang /\
                        file item <> None /\ audioBuffer item = None)
           (newFileItems genId k lang files).
Proof.
  induction files as [|f files IH]; intros k; [now repeat split|].
  simpl. destruct (FileUtils.isValidFileType f); [|apply IH].
  destruct (IH (S k)) as [Hf [Hi Hall]]. simpl. rewrite Hf, Hi.
  repeat split. constructor; [|exact Hall].
  simpl. repeat split. discriminate.
Qed.

(** X9.  What [handleFiles] does with a list of files.  When the list is
    not empty and no file has a supported extension, only the global error
    is set and the queue stays as it is.  Otherwise exactly the files with
    a supported extension are enqueued, in their order, with consecutive
    fresh identifiers, idle, without text, in the selected language; the
    unsupported files among them are dropped without a message, and the
    global error is cleared. *)
Theorem handleFiles_keeps_the_valid_files
        (genId : nat -> string) (k : nat) (state : AppState) (files : list File) :
  let valid := filter FileUtils.isValidFileType files in
  (valid = [] -> files <> [] ->
   exists message,
     handleFiles genId k state (Some files) = Some (SetGlobalError (Some message)) /\
     queue (applyUpdate (SetGlobalError (Some message)) state) = queue state /\
     globalError (applyUpdate (SetGlobalError (Some message)) state) = Some message) /\
  (valid <> [] \/ files = [] ->
   exists items,
     handleFiles genId k state (Some files) = Some (AddToQueue items) /\
     map file items = map Some valid /\
     map id items = map genId (seq k (length valid)) /\
     Forall (fun item => status item = Idle /\ originalText item = "" /\
                         targetLanguage item = selectedLanguage state /\
                         file item <> None /\ audioBuffer item = None) items /\
     queue (applyUpdate (AddToQueue items) state) = (queue state ++ items)%list /\
     globalError (applyUpdate (AddToQueue items) state) = None).
Proof.
  intros valid.
  destruct (newFileItems_files genId (selectedLanguage state) files k) as [Hf [Hi Hall]].
  fold valid in Hf, Hi.
  assert (Hlen : length (newFileItems genId k (selectedLanguage state) files) = length valid).
  { rewrite <- (length_map file), Hf. apply length_map. }
  split.
  - intros Hnone Hsome. eexists. unfold handleFiles.
    rewrite Hlen, Hnone. simpl.
    destruct files; [contradiction|]. simpl. now repeat split.
  - intros Hcase. exists (newFileItems genId k (selectedLanguage state) files).
    split; [|now repeat split].
    unfold handleFiles. rewrite Hlen.
    destruct Hcase as [Hv| ->]; [|reflexivity].
    destruct valid; [contradiction | reflexivity].
Qed.

(* ================================================================== *)
(** * Text items *)

(** An item that carries its text awaits no extraction. *)
Lemma no_extraction_for_text (gw : Gateway) (item : QueueItem) :
  needsExtraction item = None ->
  existsb isExtractCall (calls (fst (pipeline gw item))) = false /\
  forall t, ~ In (SetState (UpdateItemStatus (id item) (setOriginalText t)))
                 (fst (pipeline gw item)).
Proof.
  intros Hneed. unfold_pipeline. rewrite Hneed.
  split_run; (split; [reflexivity|]); intros t; simpl; intuition discriminate.
Qed.

Lemma first_call_of_text (gw : Gateway) (item : QueueItem) :
  needsExtraction item = None ->
  blank (originalText item) = false ->
  hd_error (calls (fst (pipeline gw item))) =
  Some (if TargetLanguage_eqb (targetLanguage item) KOREAN then Delay 300
        else TranslateSafetyText (originalText item) (targetLanguage item)).
Proof.
  intros Hneed Hnb.
  rewrite (calls_pipeline gw item (originalText item)); [|unfold extractionResult; now rewrite Hneed|exact Hnb].
  rewrite Hneed. simpl.
  destruct (TargetLanguage_eqb (targetLanguage item) KOREAN); reflexivity.
Qed.


(** X11.  A derived job.  [addTranslationJob] copies file, name and text of the
    source item into one new idle item for the requested language.  When
    the source already has its text, the run of the new item awaits no
    extraction: the file is not read a second time. *)
Theorem translation_job_reuses_the_text
        (genId : nat -> string) (k : nat) (sourceItem : QueueItem) (lang : TargetLanguage) :
  JS.truthy (originalText sourceItem) = true ->
  exists job,
    addTranslationJob genId k sourceItem lang = AddToQueue [job] /\
    id job = genId k /\ status job = Idle /\ targetLanguage job = lang /\
    file job = file sourceItem /\ fileName job = fileName sourceItem /\
    originalText job = originalText sourceItem /\
    translatedText job = None /\ audioBuffer job = None /\ error job = None /\
    forall gw state,
      isProcessingQueue state = true ->
      findIdle (queue state) = Some job ->
      let acts := processNext gw state false in
      existsb isExtractCall (calls acts) = false /\
      (blank (originalText sourceItem) = false ->
       hd_error (calls acts) =
         Some (if TargetLanguage_eqb lang KOREAN then Delay 300
               else TranslateSafetyText (originalText sourceItem) lang)).
Proof.
  intros Htext. eexists. split; [reflexivity|].
  cbn [id file status originalText targetLanguage fileName translatedText audioBuffer error].
  do 9 (split; [reflexivity|]).
  intros gw state Hrun Hfind. cbv zeta.
  rewrite (calls_processNext gw _ _ Hrun Hfind).
  match type of Hfind with _ = Some ?it => set (job := it) in * end.
  assert (Hneed : needsExtraction job = None).
  { unfold needsExtraction, job. cbn [file originalText]. rewrite Htext.
    now destruct (file sourceItem). }
  split; [exact (proj1 (no_extraction_for_text gw job Hneed))|].
  intros Hnb. exact (first_call_of_text gw job Hneed Hnb).
Qed.

(* ================================================================== *)
(** * What a run leaves alone *)

Lemma merge_keeps (item : QueueItem) (updates : Partial) :
  id (merge item updates) = id item /\
  file (merge item updates) = file item /\
  fileName (merge item updates) = fileName item /\
  targetLanguage (merge item updates) = targetLanguage item.
Proof. now repeat split. Qed.

Lemma itemAfter_keeps (acts : list Action) (item : QueueItem) :
  id (itemAfter acts item) = id item /\
  file (itemAfter acts item) = file item /\
  fileName (itemAfter acts item) = fileName item /\
  targetLanguage (itemAfter acts item) = targetLanguage item.
Proof.
  revert item. induction acts as [|a acts IH]; intros item; [now repeat split|].
  destruct a as [u| | |]; simpl; try apply IH.
  destruct u as [| | |i updates| | | | |]; try apply IH.
  destruct (IH (updateItem i updates item)) as [H1 [H2 [H3 H4]]].
  rewrite H1, H2, H3, H4. unfold updateItem.
  destruct (id item =? i)%string; [apply merge_keeps | now repeat split].
Qed.

Lemma itemAfter_other (gw : Gateway) (nextItem item : QueueItem) :
  id item <> id nextItem ->
  itemAfter (fst (pipeline gw nextItem)) item = item.
Proof.
  intros Hne.
  assert (H : forall acts,
             (forall i u, In (SetState (UpdateItemStatus i u)) acts -> i = id nextItem) ->
             itemAfter acts item = item).
  { induction acts as [|a acts IH]; intros Hall; [reflexivity|].
    assert (Hrest : forall i u, In (SetState (UpdateItemStatus i u)) acts -> i = id nextItem)
      by (intros i u Hin; apply (Hall i u); now right).
    destruct a as [u| | |]; simpl; try now apply IH.
    destruct u as [| | |i updates| | | | |]; try now apply IH.
    rewrite updateItem_miss; [now apply IH|].
    rewrite (Hall i updates (or_introl eq_refl)). exact Hne. }
  apply H. intros i u. apply pipeline_targets.
Qed.

(** X12.  What a run of [processNext] leaves alone.  The run neither adds,
    removes nor reorders queue entries; identifier, file, display name and
    target language of every entry stay as they were; an entry whose
    identifier is not the picked one is not changed at all; and the
    language selector, the global error and the auto-play flag are not
    written. *)
Theorem a_run_rewrites_only_its_item
        (gw : Gateway) (state : AppState) (nextItem : QueueItem) :
  isProcessingQueue state = true ->
  findIdle (queue state) = Some nextItem ->
  let final := commit (processNext gw state false) state in
  length (queue final) = length (queue state) /\
  map id (queue final) = map id (queue state) /\
  map file (queue final) = map file (queue state) /\
  map fileName (queue final) = map fileName (queue state) /\
  map targetLanguage (queue final) = map targetLanguage (queue state) /\
  (forall n item, nth_error (queue state) n = Some item ->
                  id item <> id nextItem ->
                  nth_error (queue final) n = Some item) /\
  selectedLanguage final = selectedLanguage state /\
  globalError final = globalError state /\
  autoPlay final = autoPlay state.
Proof.
  intros Hrun Hfind final. subst final.
  rewrite (commit_processNext gw _ _ Hrun Hfind).
  cbn [queue withQueue withControl selectedLanguage globalError autoPlay].
  rewrite length_map, !map_map.
  split; [reflexivity|].
  split; [apply map_ext; intros item; apply itemAfter_keeps|].
  split; [apply map_ext; intros item; apply itemAfter_keeps|].
  split; [apply map_ext; intros item; apply itemAfter_keeps|].
  split; [apply map_ext; intros item; apply itemAfter_keeps|].
  split; [|now repeat split].
  intros n item Hn Hne. rewrite nth_error_map, Hn. simpl.
  now rewrite (itemAfter_other gw nextItem item Hne).
Qed.

(* ================================================================== *)
(** * The order of the statuses *)

(** Whatever the services answer, the run leaves an entry that carries the
    identifier of the picked item [Completed] or [Error]. *)
Lemma itemAfter_terminal (gw : Gateway) (nextItem item : QueueItem) :
  id item = id nextItem ->
  terminal (status (itemAfter (fst (pipeline gw nextItem)) item)) = true.
Proof.
  intros Hid. unfold_pipeline. split_run; same_id Hid; reflexivity.
Qed.

(** X13.  The statuses of a run, whatever the services answer.  The statuses a
    run writes go strictly forward in the order extracting, translating,
    speaking, completed, error; the run always writes at least one, and the
    last one it writes is [Completed] or [Error]: no answer of the gateway
    leaves the item in an intermediate status.  The timer that re-arms the
    loop is the last action of the run. *)
Theorem a_run_ends_in_a_terminal_status
        (gw : Gateway) (state : AppState) (nextItem : QueueItem) :
  isProcessingQueue state = true ->
  findIdle (queue state) = Some nextItem ->
  let acts := processNext gw state false in
  ascending (map rank (statuses acts)) = true /\
  terminal (last (statuses acts) Idle) = true /\
  terminal (status (itemAfter acts nextItem)) = true /\
  last acts (SetTimeout 0) = SetTimeout 100.
Proof.
  intros Hrun Hfind acts. subst acts.
  rewrite (statuses_processNext gw _ _ Hrun Hfind).
  unfold processNext. rewrite Hrun, Hfind. cbn [negb orb].
  split; [|split; [|split]].
  - unfold_pipeline. split_run; reflexivity.
  - unfold_pipeline. split_run; reflexivity.
  - cbn [itemAfter]. rewrite itemAfter_app. cbn [itemAfter].
    now apply itemAfter_terminal.
  - change (SetState (SetCurrentItemId (id nextItem))
              :: (fst (pipeline gw nextItem) ++ [SetTimeout 100])%list)
      with ((SetState (SetCurrentItemId (id nextItem)) :: fst (pipeline gw nextItem))
              ++ [SetTimeout 100])%list.
    apply last_last.
Qed.

(* ================================================================== *)
(** * The guard that cannot fire *)

(** X14.  The first guard.  Every item the intake handlers build has a file
    or a text that is not blank: the items of [handleFiles] carry a file,
    [addManualInput] refuses blank input, and [addTranslationJob] copies
    file and text of its source.  A run keeps that property of its item,
    and for such an item the first guard of [processNext] ("there is no
    text to translate") never throws: the text after the first stage is
    judged by the empty-content guard alone. *)
Theorem the_no_text_guard_never_fires :
  (forall genId k lang files item,
     In item (newFileItems genId k lang files) -> hasSource item = true) /\
  (forall genId k state manualInput items,
     addManualInput genId k state manualInput = Some (AddToQueue items) ->
     forallb hasSource items = true) /\
  (forall genId k sourceItem lang items,
     hasSource sourceItem = true ->
     addTranslationJob genId k sourceItem lang = AddToQueue items ->
     forallb hasSource items = true) /\
  (forall gw nextItem,
     hasSource nextItem = true ->
     hasSource (itemAfter (fst (pipeline gw nextItem)) nextItem) = true) /\
  (forall nextItem textToTranslate,
     hasSource nextItem = true ->
     (needsExtraction nextItem = None -> textToTranslate = originalText nextItem) ->
     guards nextItem textToTranslate =
       if blank textToTranslate
       then ([], Rejected "텍스트를 추출할 수 없거나 내용이 비어있습니다.")
       else ([], Resolved tt)).
Proof.
  split; [|split; [|split; [|split]]].
  - intros genId k lang files item Hin.
    destruct (newFileItems_files genId lang files k) as [_ [_ Hall]].
    rewrite Forall_forall in Hall. destruct (Hall _ Hin) as [_ [_ [_ [Hfile _]]]].
    unfold hasSource. destruct (file item); [reflexivity | contradiction].
  - intros genId k state manualInput items. unfold addManualInput.
    destruct (negb (JS.truthy (JS.trim manualInput))) eqn:Hb; [discriminate|].
    intros H. injection H as <-. cbn [forallb]. unfold hasSource, blank.
    cbn [file originalText]. now rewrite Hb.
  - intros genId k sourceItem lang items Hsrc. unfold addTranslationJob.
    intros H. injection H as <-. cbn [forallb]. unfold hasSource in *. cbn [file originalText].
    now rewrite Hsrc.
  - intros gw nextItem Hsrc. unfold hasSource in *.
    destruct (itemAfter_keeps (fst (pipeline gw nextItem)) nextItem) as [_ [Hfile _]].
    rewrite Hfile. destruct (file nextItem) as [f|] eqn:Hf; [reflexivity|].
    simpl in *.
    assert (Hneed : needsExtraction nextItem = None)
      by (unfold needsExtraction; now rewrite Hf).
    replace (originalText (itemAfter (fst (pipeline gw nextItem)) nextItem))
      with (originalText nextItem); [exact Hsrc|].
    clear - Hneed. unfold_pipeline. rewrite Hneed.
    split_run; cbn [itemAfter fst List.app]; unfold updateItem;
      rewrite ?String.eqb_refl; cbn [id merge]; rewrite ?String.eqb_refl;
      cbn [id merge]; rewrite ?String.eqb_refl; cbn [id merge];
      rewrite ?String.eqb_refl; reflexivity.
  - intros nextItem text Hsrc Htext. unfold guards, bind, ret, throw.
    unfold hasSource in Hsrc.
    destruct (file nextItem) as [f|] eqn:Hf.
    + cbn [JS.isSome negb]. rewrite Bool.andb_false_r. unfold blank.
      now destruct (negb (JS.truthy (JS.trim text))).
    + simpl in Hsrc. rewrite Htext by (unfold needsExtraction; now rewrite Hf).
      apply negb_true_iff in Hsrc. rewrite Hsrc.
      unfold blank in Hsrc. apply negb_false_iff in Hsrc.
      now rewrite (truthy_trim _ Hsrc), Hsrc.
Qed.

(* ================================================================== *)
(** * User actions while a run is in flight *)

Lemma filter_map_swap {A : Type} (keep : A -> bool) (f : A -> A) (xs : list A) :
  (forall x, keep (f x) = keep x) ->
  filter keep (map f xs) = map f (filter keep xs).
Proof.
  intros Hk. induction xs as [|x xs IH]; [reflexivity|].
  simpl. rewrite Hk. destruct (keep x); simpl; now rewrite IH.
Qed.

Lemma map_updateItem_others (i : string) (updates : Partial) (items : list QueueItem) :
  Forall (fun item => id item <> i) items ->
  map (updateItem i updates) items = items.
Proof.
  induction 1 as [|item items Hne _ IH]; [reflexivity|].
  simpl. now rewrite (updateItem_miss _ _ _ Hne), IH.
Qed.

(** An item update and an updater of the user can be applied in either
    order. *)
Lemma applyUpdate_swap (u : Update) (i : string) (updates : Partial) (s : AppState) :
  userUpdate u = true ->
  (forall items, u = AddToQueue items -> Forall (fun item => id item <> i) items) ->
  applyUpdate (UpdateItemStatus i updates) (applyUpdate u s) =
  applyUpdate u (applyUpdate (UpdateItemStatus i updates) s).
Proof.
  intros Huser Hfresh.
  destruct u as [items|j| | | | | | |message]; try discriminate; try reflexivity.
  - unfold applyUpdate, withQueue, withGlobalError. cbn. f_equal.
    rewrite map_app. f_equal. apply map_updateItem_others. now apply Hfresh.
  - unfold applyUpdate, withQueue. cbn. f_equal.
    symmetry. apply filter_map_swap. intros item. now rewrite id_updateItem.
Qed.

Lemma commit_swap (u : Update) (i : string) (rest : list Action) :
  userUpdate u = true ->
  (forall items, u = AddToQueue items -> Forall (fun item => id item <> i) items) ->
  forallb inPlace rest = true ->
  (forall j updates, In (SetState (UpdateItemStatus j updates)) rest -> j = i) ->
  forall s, commit rest (applyUpdate u s) = applyUpdate u (commit rest s).
Proof.
  intros Huser Hfresh. induction rest as [|a rest IH]; intros Hin Hto s; [reflexivity|].
  simpl in Hin. apply andb_true_iff in Hin as [Ha Hin].
  assert (Hto' : forall j updates, In (SetState (UpdateItemStatus j updates)) rest -> j = i)
    by (intros j updates H; apply (Hto j updates); now right).
  destruct a as [v| | |]; cbn [commit]; try now apply IH.
  destruct v as [| | |j updates| | | | |]; try discriminate.
  rewrite (Hto j updates (or_introl eq_refl)).
  rewrite (applyUpdate_swap u i updates s Huser Hfresh). now apply IH.
Qed.

(** The part of a run that is still to come, once the scan has set
    [currentItemId]. *)
Lemma rest_of_run (gw : Gateway) (state : AppState) (nextItem : QueueItem)
      (done rest : list Action) :
  isProcessingQueue state = true ->
  findIdle (queue state) = Some nextItem ->
  processNext gw state false =
    (SetState (SetCurrentItemId (id nextItem)) :: done ++ rest)%list ->
  forallb inPlace rest = true /\
  (forall j updates, In (SetState (UpdateItemStatus j updates)) rest -> j = id nextItem) /\
  commit (processNext gw state false) state =
    commit rest (commit (SetState (SetCurrentItemId (id nextItem)) :: done) state).
Proof.
  intros Hrun Hfind Hacts. split; [|split].
  - assert (H : forallb inPlace (done ++ rest) = true).
    { unfold processNext in Hacts. rewrite Hrun, Hfind in Hacts. simpl in Hacts.
      injection Hacts as <-. rewrite forallb_app, pipeline_inPlace. reflexivity. }
    rewrite forallb_app in H. now apply andb_true_iff in H.
  - intros j updates Hin.
    apply (stale_scan_picks_same_item gw state nextItem j updates Hrun Hfind).
    rewrite Hacts. right. apply in_or_app. now right.
  - rewrite Hacts.
    change (SetState (SetCurrentItemId (id nextItem)) :: done ++ rest)%list
      with ((SetState (SetCurrentItemId (id nextItem)) :: done) ++ rest)%list.
    apply commit_app.
Qed.

(** X15.  User actions while a run is in flight.  Once the scan has set
    [currentItemId], an updater of the user (enqueue, remove, clear, stop,
    start, global error) that arrives between two awaits gives the same
    final state as the same updater applied after the whole run, provided
    that newly enqueued items do not carry the identifier of the item in
    flight. *)
Theorem user_updates_commute_with_the_run_in_flight
        (gw : Gateway) (state : AppState) (nextItem : QueueItem)
        (done rest : list Action) (u : Update) :
  isProcessingQueue state = true ->
  findIdle (queue state) = Some nextItem ->
  processNext gw state false =
    (SetState (SetCurrentItemId (id nextItem)) :: done ++ rest)%list ->
  userUpdate u = true ->
  (forall items, u = AddToQueue items ->
                 Forall (fun item => id item <> id nextItem) items) ->
  commit rest (applyUpdate u (commit (SetState (SetCurrentItemId (id nextItem)) :: done) state)) =
  applyUpdate u (commit (processNext gw state false) state).
Proof.
  intros Hrun Hfind Hacts Huser Hfresh.
  destruct (rest_of_run gw state nextItem done rest Hrun Hfind Hacts) as [Hin [Hto ->]].
  now apply commit_swap with (i := id nextItem).
Qed.

(** X16.  The stop button is cooperative.  Pressing stop while a run is in
    flight does not interrupt it: the rest of the run is applied as if
    nothing had happened, so the queue ends as the uninterrupted run leaves
    it and the item in flight reaches [Completed] or [Error]; only
    [isProcessingQueue] is false at the end, and [currentItemId] still
    names the item. *)
Theorem stop_lets_the_item_in_flight_finish
        (gw : Gateway) (state : AppState) (nextItem : QueueItem)
        (done rest : list Action) :
  isProcessingQueue state = true ->
  findIdle (queue state) = Some nextItem ->
  processNext gw state false =
    (SetState (SetCurrentItemId (id nextItem)) :: done ++ rest)%list ->
  let stopped :=
    applyUpdate ToggleOff (commit (SetState (SetCurrentItemId (id nextItem)) :: done) state) in
  let final := commit rest stopped in
  isProcessingQueue stopped = false /\
  queue final = queue (commit (processNext gw state false) state) /\
  (forall item, In item (queue final) -> id item = id nextItem ->
                terminal (status item) = true) /\
  isProcessingQueue final = false /\
  currentItemId final = Some (id nextItem).
Proof.
  intros Hrun Hfind Hacts stopped final.
  destruct (rest_of_run gw state nextItem done rest Hrun Hfind Hacts) as [Hin [Hto Hall]].
  assert (Hfinal : final = applyUpdate ToggleOff (commit (processNext gw state false) state)).
  { subst final stopped. rewrite Hall.
    apply commit_swap with (i := id nextItem); [reflexivity|discriminate|exact Hin|exact Hto]. }
  split; [reflexivity|].
  rewrite Hfinal, (commit_processNext gw _ _ Hrun Hfind).
  split; [reflexivity|]. split; [|split; reflexivity].
  cbn [applyUpdate queue withQueue withControl].
  intros item Hitem Hid. apply in_map_iff in Hitem as [before [<- _]].
  rewrite id_itemAfter in Hid. now apply itemAfter_terminal.
Qed.

(** X17.  Removing the item in flight.  When the user removes the item the
    run is working on, the updates the run still makes find no entry: the
    queue ends as the queue before the run without that identifier, the
    other entries untouched, while [currentItemId] keeps naming the removed
    item and the processor stays marked as running. *)
Theorem removing_the_item_in_flight_discards_its_result
        (gw : Gateway) (state : AppState) (nextItem : QueueItem)
        (done rest : list Action) :
  isProcessingQueue state = true ->
  findIdle (queue state) = Some nextItem ->
  processNext gw state false =
    (SetState (SetCurrentItemId (id nextItem)) :: done ++ rest)%list ->
  let final :=
    commit rest
      (applyUpdate (RemoveFromQueue (id nextItem))
         (commit (SetState (SetCurrentItemId (id nextItem)) :: done) state)) in
  queue final =
    filter (fun item => negb (String.eqb (id item) (id nextItem))) (queue state) /\
  ~ In (id nextItem) (map id (queue final)) /\
  currentItemId final = Some (id nextItem) /\
  isProcessingQueue final = true.
Proof.
  intros Hrun Hfind Hacts final.
  destruct (rest_of_run gw state nextItem done rest Hrun Hfind Hacts) as [Hin [Hto Hall]].
  assert (Hfinal : final = applyUpdate (RemoveFromQueue (id nextItem))
                             (commit (processNext gw state false) state)).
  { subst final. rewrite Hall.
    apply commit_swap with (i := id nextItem); [reflexivity|discriminate|exact Hin|exact Hto]. }
  assert (Hq : queue final =
               filter (fun item => negb (String.eqb (id item) (id nextItem))) (queue state)).
  { rewrite Hfinal, (commit_processNext gw _ _ Hrun Hfind).
    cbn [applyUpdate queue withQueue withControl].
    rewrite filter_map_swap by (intros item; now rewrite id_itemAfter).
    rewrite <- (map_id (filter _ (queue state))) at 2.
    apply map_ext_in. intros item Hitem. apply filter_In in Hitem as [_ Hne].
    apply itemAfter_other. apply negb_true_iff, String.eqb_neq in Hne. exact Hne. }
  split; [exact Hq|]. split; [|split].
  - rewrite Hq. apply not_In_filter_id.
  - rewrite Hfinal, (commit_processNext gw _ _ Hrun Hfind). reflexivity.
  - rewrite Hfinal, (commit_processNext gw _ _ Hrun Hfind). reflexivity.
Qed.

(* ================================================================== *)
(** * Stop and start *)

(** X18.  Stop, then start.  From a world in which nothing is pending while
    the processor is marked running (the state a run leaves behind), the
    stop button starts nothing; the start button that follows clears
    [currentItemId], and the effect then runs [processNext] once, for the
    first idle item, and comes to rest again. *)
Theorem stop_then_start_processes_one_more_item
        (gw : Gateway) (w : World) (nextItem : QueueItem) :
  quiescent w = true ->
  isProcessingQueue (live w) = true ->
  findIdle (queue (live w)) = Some nextItem ->
  JS.truthy (id nextItem) = true ->
  let stopped := step gw (toggleProcessing w) in
  let restarted := toggleProcessing stopped in
  let fresh := withControl (live w) true None in
  live stopped = withControl (live w) false (currentItemId (live w)) /\
  quiescent stopped = true /\
  live restarted = fresh /\
  live (run gw 3 restarted) = commit (processNext gw fresh false) fresh /\
  quiescent (run gw 3 restarted) = true.
Proof.
  intros Hquiet Hrun Hfind Hid stopped restarted fresh.
  unfold quiescent in Hquiet. apply andb_true_iff in Hquiet as [Hdeps Htimers].
  destruct w as [s q k [[p q'] c] ts]. cbn [live timers] in *.
  destruct ts as [|t ts]; [clear Htimers|discriminate].
  unfold deps in Hdeps. cbn [live queueRef effectDeps] in Hdeps.
  rewrite Hrun in Hdeps. destruct p; [|discriminate].
  assert (Hstopped : stopped =
            {| live := withControl s false (currentItemId s); queueRef := q;
               effectRun := S k;
               effectDeps := (false, q, currentItemId s); timers := [] |}).
  { subst stopped. unfold toggleProcessing. cbn [live]. rewrite Hrun.
    unfold step, setState, deps. cbn. reflexivity. }
  assert (Hrestarted : restarted =
            {| live := fresh; queueRef := q; effectRun := S k;
               effectDeps := (false, q, currentItemId s); timers := [] |}).
  { subst restarted. rewrite Hstopped. reflexivity. }
  split; [now rewrite Hstopped|].
  split.
  { rewrite Hstopped. unfold quiescent, deps. cbn [live queueRef effectDeps timers].
    cbn [withControl isProcessingQueue currentItemId].
    now rewrite (Deps_eqb_refl (false, q, currentItemId s)). }
  split; [now rewrite Hrestarted|].
  assert (H1 : Deps_eqb (deps restarted) (effectDeps restarted) = false)
    by (rewrite Hrestarted; reflexivity).
  assert (H2 : timers restarted = []) by (rewrite Hrestarted; reflexivity).
  assert (H3 : effectGuard (live restarted) = true) by (rewrite Hrestarted; reflexivity).
  assert (H4 : findIdle (queue (live restarted)) = Some nextItem)
    by (rewrite Hrestarted; exact Hfind).
  destruct (loop_stalls_after_one_item gw restarted nextItem H1 H2 H3 H4 Hid)
    as [Hlive [Hq _]].
  split; [|exact Hq].
  rewrite Hlive, Hrestarted. reflexivity.
Qed.

(* ================================================================== *)
(** * Start with nothing to do *)


(* ================================================================== *)
(** * Playback: offsets and progress *)



Lemma Qc100_positive : (Q2Qc 0 < Qc100)%Qc.
Proof. reflexivity. Qed.

Lemma scaled_by_duration (x d : Qc) :
  (Q2Qc 0 < d)%Qc -> (x / d * Qc100 * d = x * Qc100)%Qc.
Proof.
  intros Hd. field. intros H. rewrite H in Hd. discriminate.
Qed.

Lemma percent_lt (x d : Qc) :
  (Q2Qc 0 < d)%Qc -> ((x / d * Qc100 < Qc100)%Qc <-> (x < d)%Qc).
Proof.
  intros Hd. split; intros H.
  - apply Qcnot_le_lt. intros Hle.
    apply (Qcmult_lt_compat_r _ _ d Hd) in H.
    rewrite (scaled_by_duration x d Hd) in H.
    apply (Qcle_not_lt (Qc100 * d) (x * Qc100))%Qc; [|exact H].
    rewrite (Qcmult_comm Qc100 d).
    apply Qcmult_le_compat_r; [exact Hle | apply Qclt_le_weak, Qc100_positive].
  - apply Qcnot_le_lt. intros Hle.
    apply (Qcmult_le_compat_r _ _ d) in Hle; [|now apply Qclt_le_weak].
    rewrite (scaled_by_duration x d Hd), (Qcmult_comm Qc100 d) in Hle.
    apply (Qcle_not_lt _ _ Hle).
    apply Qcmult_lt_compat_r; [apply Qc100_positive | exact H].
Qed.

Lemma percent_le (x y d : Qc) :
  (Q2Qc 0 < d)%Qc -> (x <= y)%Qc -> (x / d * Qc100 <= y / d * Qc100)%Qc.
Proof.
  intros Hd Hle. apply (Qcmult_lt_0_le_reg_r _ _ d Hd).
  rewrite !(scaled_by_duration _ d Hd).
  apply Qcmult_le_compat_r; [exact Hle | apply Qclt_le_weak, Qc100_positive].
Qed.

Lemma Math_min_spec (a b : Qc) :
  ((a <= b)%Qc /\ Math_min a b = a) \/ ((b < a)%Qc /\ Math_min a b = b).
Proof.
  unfold Math_min. destruct (a ?= b)%Qc eqn:Hc.
  - left. split; [|reflexivity]. apply Qcle_alt. rewrite Hc. discriminate.
  - left. split; [|reflexivity]. apply Qcle_alt. rewrite Hc. discriminate.
  - right. split; [|reflexivity]. now apply Qcgt_alt.
Qed.

(** X21.  The progress bar.  For a buffer of positive duration, the value
    [updateProgress] computes never exceeds 100, is not negative when the
    elapsed total is not, grows with the clock, and is below 100 exactly
    while the elapsed total is below the duration; a frame callback that
    finds the source stores that value and asks for another frame exactly
    in that case, so the frame loop ends by itself when the bar is full. *)
Theorem progress_stays_within_the_bar
        (buffer : AudioBuffer) (now : Qc) (p : Player) :
  (Q2Qc 0 < duration buffer)%Qc ->
  let total := (offsetRef p + (now - startTimeRef p))%Qc in
  (progressAt buffer now p <= Qc100)%Qc /\
  ((Q2Qc 0 <= total)%Qc -> (Q2Qc 0 <= progressAt buffer now p)%Qc) /\
  ((progressAt buffer now p < Qc100)%Qc <-> (total < duration buffer)%Qc) /\
  (forall later, (now <= later)%Qc ->
                 (progressAt buffer now p <= progressAt buffer later p)%Qc) /\
  (forall s, animationFrameRef p = true ->
             audioSourceRef p = Some s ->
             src_buffer s = buffer ->
             playbackProgress (updateProgress now p) = progressAt buffer now p /\
             (animationFrameRef (updateProgress now p) = true <->
              (total < duration buffer)%Qc)).
Proof.
  intros Hd total.
  assert (Hlt : (progressAt buffer now p < Qc100)%Qc <-> (total < duration buffer)%Qc).
  { rewrite <- (percent_lt total (duration buffer) Hd).
    unfold progressAt. fold total.
    destruct (Math_min_spec (total / duration buffer * Qc100)%Qc Qc100)
      as [[Hle ->]|[Hgt ->]]; [reflexivity|].
    split; intros H.
    - exfalso. revert H. apply Qcle_not_lt, Qcle_refl.
    - exfalso. revert H. apply Qcle_not_lt, Qclt_le_weak, Hgt. }
  split; [|split; [|split; [exact Hlt|split]]].
  - unfold progressAt. fold total.
    destruct (Math_min_spec (total / duration buffer * Qc100)%Qc Qc100)
      as [[Hle ->]|[Hgt ->]]; [exact Hle | apply Qcle_refl].
  - intros Hpos. unfold progressAt. fold total.
    destruct (Math_min_spec (total / duration buffer * Qc100)%Qc Qc100)
      as [[Hle ->]|[Hgt ->]]; [|apply Qclt_le_weak, Qc100_positive].
    apply (Qcmult_lt_0_le_reg_r _ _ (duration buffer) Hd).
    rewrite (scaled_by_duration _ _ Hd).
    replace (Q2Qc 0 * duration buffer)%Qc with (Q2Qc 0 * Qc100)%Qc by ring.
    apply Qcmult_le_compat_r; [exact Hpos | apply Qclt_le_weak, Qc100_positive].
  - intros later Hlater. unfold progressAt.
    assert (Hmono : ((offsetRef p + (now - startTimeRef p)) / duration buffer * Qc100 <=
                     (offsetRef p + (later - startTimeRef p)) / duration buffer * Qc100)%Qc).
    { apply percent_le; [exact Hd|].
      apply Qcplus_le_compat; [apply Qcle_refl|].
      unfold Qcminus. apply Qcplus_le_compat; [exact Hlater | apply Qcle_refl]. }
    destruct (Math_min_spec ((offsetRef p + (now - startTimeRef p)) / duration buffer * Qc100)%Qc Qc100)
      as [[Hle ->]|[Hgt ->]];
    destruct (Math_min_spec ((offsetRef p + (later - startTimeRef p)) / duration buffer * Qc100)%Qc Qc100)
      as [[Hle' ->]|[Hgt' ->]].
    + exact Hmono.
    + exact Hle.
    + apply Qclt_le_weak. eapply Qclt_le_trans; [exact Hgt | exact Hmono].
    + apply Qcle_refl.
  - intros s Hframe Hs Hbuf. unfold updateProgress. rewrite Hframe, Hs, Hbuf.
    cbn [playbackProgress animationFrameRef]. split; [reflexivity|].
    rewrite <- Hlt. rewrite Qclt_alt.
    destruct (progressAt buffer now p ?= Qc100)%Qc; split; congruence.
Qed.

(* ================================================================== *)
(** * The item a run leaves behind *)


(* ================================================================== *)
(** * A queue at rest with an item marked current *)

Lemma keepsControl_control (u : Update) (s : AppState) :
  keepsControl u = true ->
  isProcessingQueue (applyUpdate u s) = isProcessingQueue s /\
  currentItemId (applyUpdate u s) = currentItemId s.
Proof.
  destruct u; try discriminate; intros _; split; reflexivity.
Qed.

(** A render in which [currentItemId] is set starts no scan and arms
    nothing. *)
Lemma render_with_current_item (gw : Gateway) (u : Update) (w : World) (c : string) :
  keepsControl u = true ->
  isProcessingQueue (live w) = true ->
  currentItemId (live w) = Some c ->
  JS.truthy c = true ->
  quiescent w = true ->
  live (step gw (setState u w)) = applyUpdate u (live w) /\
  quiescent (step gw (setState u w)) = true.
Proof.
  intros Hu Hrun Hcur Hc Hquiet.
  destruct (keepsControl_control u (live w) Hu) as [Hp Hi].
  unfold quiescent in Hquiet. apply andb_true_iff in Hquiet as [Hdeps Htimers].
  destruct (timers w) as [|t ts] eqn:Ht; [clear Htimers|discriminate].
  unfold step.
  destruct (Deps_eqb (deps (setState u w)) (effectDeps (setState u w))) eqn:Hsame;
    cbn [negb].
  - unfold fireTimer. cbn [timers setState]. rewrite Ht.
    split; [reflexivity|].
    unfold quiescent. rewrite Hsame. cbn [timers setState]. now rewrite Ht.
  - unfold rerunEffect, effectGuard. cbn [live setState].
    rewrite Hp, Hi, Hrun, Hcur. cbn [JS.truthyOpt]. rewrite Hc. cbn [negb andb].
    split; [reflexivity|].
    unfold quiescent. cbn [effectDeps timers setState]. rewrite Ht.
    match goal with |- Deps_eqb ?a ?b && _ = _ => change a with b end.
    now rewrite Deps_eqb_refl.
Qed.

(** X23.  A queue at rest with an item marked current.  In a world in which
    nothing is pending while the processor is marked running and
    [currentItemId] is set, no enqueueing,
    removal, item update or global error starts a scan: after any series of
    such updates the state is the one the updates alone produce, nothing is
    pending, and in particular newly enqueued items are not processed. *)
Theorem a_set_current_item_blocks_the_queue
        (gw : Gateway) (updates : list Update) (w : World) (c : string) :
  forallb keepsControl updates = true ->
  isProcessingQueue (live w) = true ->
  currentItemId (live w) = Some c ->
  JS.truthy c = true ->
  quiescent w = true ->
  let w' := renders gw updates w in
  live w' = fold_left (fun s u => applyUpdate u s) updates (live w) /\
  isProcessingQueue (live w') = true /\
  currentItemId (live w') = Some c /\
  quiescent w' = true.
Proof.
  revert w. induction updates as [|u updates IH]; intros w Hall Hrun Hcur Hc Hquiet w'.
  - subst w'. now repeat split.
  - subst w'. cbn [forallb] in Hall. apply andb_true_iff in Hall as [Hu Hall].
    destruct (render_with_current_item gw u w c Hu Hrun Hcur Hc Hquiet) as [Hlive Hq].
    destruct (keepsControl_control u (live w) Hu) as [Hp Hi].
    unfold renders. cbn [fold_left]. fold (renders gw updates (step gw (setState u w))).
    rewrite <- Hlive.
    apply IH; [exact Hall | | | exact Hc | exact Hq].
    + now rewrite Hlive, Hp.
    + now rewrite Hlive, Hi.
Qed.

(* ================================================================== *)
(** * The further properties at sample inputs *)

(** [notice.hwp] passes intake and fails extraction. *)
Lemma hwp_and_pptx_are_accepted_then_refused_witness :
  let b := Sample.online in
  let nextItem := Sample.fileItem "f1" Sample.hwpFile CHINESE in
  let state := Sample.withItems [nextItem] true in
  (JS.endsWith (JS.toLowerCase (name Sample.hwpFile)) ".hwp" = true /\
   isProcessingQueue state = true /\
   findIdle (queue state) = Some nextItem /\
   needsExtraction nextItem = Some Sample.hwpFile) /\
  FileUtils.isValidFileType Sample.hwpFile = true /\
  GeminiService.extractTextFromFile b Sample.hwpFile = Rejected GeminiService.hwpMessage /\
  forall item,
    In item (queue (commit (processNext (geminiService b) state false) state)) ->
    id item = id nextItem ->
    status item = Error /\
    error item = Some ("파일 읽기 실패: " ++ GeminiService.hwpMessage).
Proof.
  intros b nextItem state.
  assert (H0 : JS.endsWith (JS.toLowerCase (name Sample.hwpFile)) ".hwp" = true)
    by reflexivity.
  assert (H1 : isProcessingQueue state = true) by reflexivity.
  assert (H2 : findIdle (queue state) = Some nextItem) by reflexivity.
  assert (H3 : needsExtraction nextItem = Some Sample.hwpFile) by reflexivity.
  destruct (hwp_and_pptx_are_accepted_then_refused b Sample.hwpFile (or_introl H0))
    as [Hvalid [Hrefused Hitem]].
  split; [exact (conj H0 (conj H1 (conj H2 H3)))|].
  exact (conj Hvalid (conj Hrefused (Hitem state nextItem H1 H2 H3))).
Defined.

(** A picture is refused by intake and by extraction. *)
Lemma refused_types_are_unsupported_witness :
  FileUtils.isValidFileType Fixture.pngFile = false /\
  GeminiService.extractTextFromFile Sample.online Fixture.pngFile =
  Rejected "파일 내용을 읽는 중 오류가 발생했습니다: 지원되지 않는 파일 형식입니다.".
Proof.
  assert (H : FileUtils.isValidFileType Fixture.pngFile = false) by reflexivity.
  exact (conj H (refused_types_are_unsupported Sample.online Fixture.pngFile H)).
Defined.

(** A Word file is read the same way without a key; a PDF is not read
    without one. *)
Lemma only_pdf_extraction_needs_the_key_witness :
  (JS.endsWith (JS.toLowerCase (name Fixture.docxFile)) ".docx" = true /\
   GeminiService.extractTextFromFile (withKey None Sample.online) Fixture.docxFile =
   GeminiService.extractTextFromFile Sample.online Fixture.docxFile) /\
  (JS.endsWith (JS.toLowerCase (name Sample.hugeFile)) ".pdf" = true /\
   GeminiService.validateApiKey Sample.offline <> Resolved tt /\
   GeminiService.extractTextFromFile Sample.offline Sample.hugeFile =
   Rejected GeminiService.apiKeyMessage).
Proof.
  assert (H1 : JS.endsWith (JS.toLowerCase (name Fixture.docxFile)) ".docx" = true)
    by reflexivity.
  assert (H2 : JS.endsWith (JS.toLowerCase (name Sample.hugeFile)) ".pdf" = true)
    by reflexivity.
  assert (H3 : GeminiService.validateApiKey Sample.offline <> Resolved tt)
    by (intros H; discriminate H).
  split.
  - exact (conj H1 (proj1 (only_pdf_extraction_needs_the_key Sample.online Fixture.docxFile)
                          (or_introl H1) None)).
  - exact (conj H2 (conj H3
             (proj2 (only_pdf_extraction_needs_the_key Sample.offline Sample.hugeFile)
                    H2 H3))).
Defined.


(** A drop of three files, one of them a picture; and a drop of the
    picture alone. *)
Lemma handleFiles_keeps_the_valid_files_witness :
  (exists items,
     handleFiles Fixture.genId 0 initialState
       (Some [Sample.hwpFile; Fixture.pngFile; Sample.txtFile]) = Some (AddToQueue items) /\
     map file items = [Some Sample.hwpFile; Some Sample.txtFile] /\
     map id items = ["a"; "b"]) /\
  (exists message,
     handleFiles Fixture.genId 0 initialState (Some [Fixture.pngFile]) =
       Some (SetGlobalError (Some message)) /\
     queue (applyUpdate (SetGlobalError (Some message)) initialState) = []).
Proof.
  split.
  - destruct (proj2 (handleFiles_keeps_the_valid_files Fixture.genId 0 initialState
                       [Sample.hwpFile; Fixture.pngFile; Sample.txtFile]))
      as [items [Hadd [Hfiles [Hids _]]]].
    + left. discriminate.
    + exists items. exact (conj Hadd (conj Hfiles Hids)).
  - destruct (proj1 (handleFiles_keeps_the_valid_files Fixture.genId 0 initialState
                       [Fixture.pngFile]))
      as [message [Hset [Hqueue _]]].
    + reflexivity.
    + discriminate.
    + exists message. exact (conj Hset Hqueue).
Defined.


(** An English job derived from a finished Chinese one. *)
Lemma translation_job_reuses_the_text_witness :
  JS.truthy (originalText Fixture.doneItem) = true /\
  exists job,
    addTranslationJob Fixture.genId 1 Fixture.doneItem ENGLISH = AddToQueue [job] /\
    id job = "b" /\ status job = Idle /\ targetLanguage job = ENGLISH /\
    file job = Some Sample.txtFile /\ originalText job = Sample.notice.
Proof.
  assert (H : JS.truthy (originalText Fixture.doneItem) = true) by reflexivity.
  split; [exact H|].
  destruct (translation_job_reuses_the_text Fixture.genId 1 Fixture.doneItem ENGLISH H)
    as [job [Hadd [Hid [Hstatus [Hlang [Hfile [_ [Htext _]]]]]]]].
  exists job.
  exact (conj Hadd (conj Hid (conj Hstatus (conj Hlang (conj Hfile Htext))))).
Defined.

(** The run for the first of two items. *)
Lemma a_run_rewrites_only_its_item_witness :
  let gw := geminiService Sample.online in
  let nextItem := Sample.fileItem "f1" Sample.txtFile CHINESE in
  let state := Sample.withItems Sample.twoGoodItems true in
  let final := commit (processNext gw state false) state in
  (isProcessingQueue state = true /\ findIdle (queue state) = Some nextItem) /\
  length (queue final) = length (queue state) /\
  map id (queue final) = map id (queue state) /\
  nth_error (queue final) 1 = Some (Sample.textItem "t2" Sample.notice KOREAN).
Proof.
  intros gw nextItem state final.
  assert (H1 : isProcessingQueue state = true) by reflexivity.
  assert (H2 : findIdle (queue state) = Some nextItem) by reflexivity.
  destruct (a_run_rewrites_only_its_item gw state nextItem H1 H2)
    as [Hlen [Hids [_ [_ [_ [Hother _]]]]]].
  split; [exact (conj H1 H2)|].
  split; [exact Hlen|]. split; [exact Hids|].
  apply (Hother 1 (Sample.textItem "t2" Sample.notice KOREAN)); [reflexivity|].
  intros H. discriminate H.
Defined.

(** The run for [notice.hwp], which fails. *)
Lemma a_run_ends_in_a_terminal_status_witness :
  let gw := geminiService Sample.offline in
  let nextItem := Sample.fileItem "f1" Sample.hwpFile CHINESE in
  let state := Sample.withItems Sample.twoItems true in
  let acts := processNext gw state false in
  (isProcessingQueue state = true /\ findIdle (queue state) = Some nextItem) /\
  statuses acts = [Extracting; Error] /\
  ascending (map rank (statuses acts)) = true /\
  terminal (last (statuses acts) Idle) = true.
Proof.
  intros gw nextItem state acts.
  assert (H1 : isProcessingQueue state = true) by reflexivity.
  assert (H2 : findIdle (queue state) = Some nextItem) by reflexivity.
  destruct (a_run_ends_in_a_terminal_status gw state nextItem H1 H2)
    as [Hup [Hlast _]].
  split; [exact (conj H1 H2)|].
  split; [vm_compute; reflexivity|].
  exact (conj Hup Hlast).
Defined.

(** A third item is enqueued while [notice.hwp] is being extracted. *)
Lemma user_updates_commute_with_the_run_in_flight_witness :
  let gw := geminiService Sample.offline in
  let nextItem := Sample.fileItem "f1" Sample.hwpFile CHINESE in
  let state := Sample.withItems Sample.twoItems true in
  let u := AddToQueue [Sample.textItem "t3" Sample.notice ENGLISH] in
  (isProcessingQueue state = true /\
   findIdle (queue state) = Some nextItem /\
   processNext gw state false =
     (SetState (SetCurrentItemId (id nextItem)) :: Fixture.hwpDone ++ Fixture.hwpRest)%list /\
   userUpdate u = true) /\
  commit Fixture.hwpRest
    (applyUpdate u (commit (SetState (SetCurrentItemId (id nextItem)) :: Fixture.hwpDone) state)) =
  applyUpdate u (commit (processNext gw state false) state).
Proof.
  intros gw nextItem state u.
  assert (H1 : isProcessingQueue state = true) by reflexivity.
  assert (H2 : findIdle (queue state) = Some nextItem) by reflexivity.
  assert (H3 : processNext gw state false =
               (SetState (SetCurrentItemId (id nextItem))
                  :: Fixture.hwpDone ++ Fixture.hwpRest)%list)
    by (vm_compute; reflexivity).
  assert (H4 : userUpdate u = true) by reflexivity.
  assert (H5 : forall items, u = AddToQueue items ->
                             Forall (fun item => id item <> id nextItem) items).
  { intros items H. injection H as <-.
    constructor; [intros H; discriminate H | constructor]. }
  split; [exact (conj H1 (conj H2 (conj H3 H4)))|].
  exact (user_updates_commute_with_the_run_in_flight
           gw state nextItem Fixture.hwpDone Fixture.hwpRest u H1 H2 H3 H4 H5).
Defined.

(** The stop button is pressed while [notice.hwp] is being extracted. *)
Lemma stop_lets_the_item_in_flight_finish_witness :
  let gw := geminiService Sample.offline in
  let nextItem := Sample.fileItem "f1" Sample.hwpFile CHINESE in
  let state := Sample.withItems Sample.twoItems true in
  let stopped :=
    applyUpdate ToggleOff
      (commit (SetState (SetCurrentItemId (id nextItem)) :: Fixture.hwpDone) state) in
  let final := commit Fixture.hwpRest stopped in
  (isProcessingQueue state = true /\
   findIdle (queue state) = Some nextItem /\
   processNext gw state false =
     (SetState (SetCurrentItemId (id nextItem)) :: Fixture.hwpDone ++ Fixture.hwpRest)%list) /\
  map status (queue stopped) = [Extracting; Idle] /\
  map status (queue final) = [Error; Idle] /\
  isProcessingQueue final = false /\
  currentItemId final = Some "f1".
Proof.
  intros gw nextItem state stopped final.
  assert (H1 : isProcessingQueue state = true) by reflexivity.
  assert (H2 : findIdle (queue state) = Some nextItem) by reflexivity.
  assert (H3 : processNext gw state false =
               (SetState (SetCurrentItemId (id nextItem))
                  :: Fixture.hwpDone ++ Fixture.hwpRest)%list)
    by (vm_compute; reflexivity).
  destruct (stop_lets_the_item_in_flight_finish
              gw state nextItem Fixture.hwpDone Fixture.hwpRest H1 H2 H3)
    as [_ [_ [_ [Hoff Hcur]]]].
  split; [exact (conj H1 (conj H2 H3))|].
  split; [vm_compute; reflexivity|].
  split; [vm_compute; reflexivity|].
  exact (conj Hoff Hcur).
Defined.

(** [notice.hwp] is removed while it is being extracted. *)
Lemma removing_the_item_in_flight_discards_its_result_witness :
  let gw := geminiService Sample.offline in
  let nextItem := Sample.fileItem "f1" Sample.hwpFile CHINESE in
  let state := Sample.withItems Sample.twoItems true in
  let final :=
    commit Fixture.hwpRest
      (applyUpdate (RemoveFromQueue (id nextItem))
         (commit (SetState (SetCurrentItemId (id nextItem)) :: Fixture.hwpDone) state)) in
  (isProcessingQueue state = true /\
   findIdle (queue state) = Some nextItem /\
   processNext gw state false =
     (SetState (SetCurrentItemId (id nextItem)) :: Fixture.hwpDone ++ Fixture.hwpRest)%list) /\
  queue final = [Sample.textItem "t2" Sample.notice KOREAN] /\
  currentItemId final = Some "f1" /\
  isProcessingQueue final = true.
Proof.
  intros gw nextItem state final.
  assert (H1 : isProcessingQueue state = true) by reflexivity.
  assert (H2 : findIdle (queue state) = Some nextItem) by reflexivity.
  assert (H3 : processNext gw state false =
               (SetState (SetCurrentItemId (id nextItem))
                  :: Fixture.hwpDone ++ Fixture.hwpRest)%list)
    by (vm_compute; reflexivity).
  destruct (removing_the_item_in_flight_discards_its_result
              gw state nextItem Fixture.hwpDone Fixture.hwpRest H1 H2 H3)
    as [Hqueue [_ [Hcur Hon]]].
  split; [exact (conj H1 (conj H2 H3))|].
  split; [exact Hqueue|].
  exact (conj Hcur Hon).
Defined.

(** After the stall that follows the first item, stop and start get the
    second item processed. *)
Lemma stop_then_start_processes_one_more_item_witness :
  let gw := geminiService Sample.online in
  let nextItem := Sample.textItem "t2" Sample.notice KOREAN in
  let restarted := toggleProcessing (step gw (toggleProcessing Fixture.stalled)) in
  (quiescent Fixture.stalled = true /\
   isProcessingQueue (live Fixture.stalled) = true /\
   findIdle (queue (live Fixture.stalled)) = Some nextItem /\
   JS.truthy (id nextItem) = true) /\
  map status (queue (live Fixture.stalled)) = [Completed; Idle] /\
  map status (queue (live (run gw 3 restarted))) = [Completed; Completed] /\
  quiescent (run gw 3 restarted) = true.
Proof.
  intros gw nextItem restarted.
  assert (H1 : quiescent Fixture.stalled = true) by (vm_compute; reflexivity).
  assert (H2 : isProcessingQueue (live Fixture.stalled) = true) by (vm_compute; reflexivity).
  assert (H3 : findIdle (queue (live Fixture.stalled)) = Some nextItem)
    by (vm_compute; reflexivity).
  assert (H4 : JS.truthy (id nextItem) = true) by reflexivity.
  destruct (stop_then_start_processes_one_more_item gw Fixture.stalled nextItem H1 H2 H3 H4)
    as [_ [_ [_ [_ Hquiet]]]].
  split; [exact (conj H1 (conj H2 (conj H3 H4)))|].
  split; [vm_compute; reflexivity|].
  split; [vm_compute; reflexivity|].
  exact Hquiet.
Defined.



(** Four seconds into a buffer of ten. *)
Lemma progress_stays_within_the_bar_witness :
  let total := (offsetRef Fixture.playingDone + (Q2Qc 4 - startTimeRef Fixture.playingDone))%Qc in
  (Q2Qc 0 < duration Sample.speechBuffer)%Qc /\
  (progressAt Sample.speechBuffer (Q2Qc 4) Fixture.playingDone <= Qc100)%Qc /\
  ((progressAt Sample.speechBuffer (Q2Qc 4) Fixture.playingDone < Qc100)%Qc <->
   (total < duration Sample.speechBuffer)%Qc).
Proof.
  intros total.
  assert (H : (Q2Qc 0 < duration Sample.speechBuffer)%Qc) by reflexivity.
  destruct (progress_stays_within_the_bar Sample.speechBuffer (Q2Qc 4) Fixture.playingDone H)
    as [Hle [_ [Hlt _]]].
  exact (conj H (conj Hle Hlt)).
Defined.

(** The data URL of a PDF. *)
Lemma fileToBase64_returns_the_payload_witness :
  let readAsDataURL := fun _ : File => Resolved "data:application/pdf;base64,JVBERi0xLjQ=" in
  (FileReader.occurs "," "data:application/pdf;base64" = false /\
   FileReader.occurs "," "JVBERi0xLjQ=" = false) /\
  FileReader.fileToBase64 readAsDataURL Sample.hugeFile = Resolved (Some "JVBERi0xLjQ=").
Proof.
  intros readAsDataURL.
  assert (H1 : FileReader.occurs "," "data:application/pdf;base64" = false) by reflexivity.
  assert (H2 : FileReader.occurs "," "JVBERi0xLjQ=" = false) by reflexivity.
  split; [exact (conj H1 H2)|].
  exact (proj1 (fileToBase64_returns_the_payload readAsDataURL Sample.hugeFile)
               "data:application/pdf;base64" "JVBERi0xLjQ=" H1 H2 eq_refl).
Defined.

(** A typed notice passes both guards. *)
Lemma the_no_text_guard_never_fires_witness :
  let nextItem := Sample.textItem "t2" Sample.notice KOREAN in
  hasSource nextItem = true /\
  guards nextItem Sample.notice = ([], Resolved tt).
Proof.
  intros nextItem.
  assert (H : hasSource nextItem = true) by (vm_compute; reflexivity).
  split; [exact H|].
  exact (proj2 (proj2 (proj2 (proj2 the_no_text_guard_never_fires)))
               nextItem Sample.notice H (fun _ => eq_refl)).
Defined.


(** After the stall that follows the first item, a third item is enqueued
    and the second one is removed: nothing is processed. *)
Lemma a_set_current_item_blocks_the_queue_witness :
  let gw := geminiService Sample.online in
  let updates := [AddToQueue [Sample.textItem "t3" Sample.notice ENGLISH];
                  RemoveFromQueue "t2"] in
  let w' := renders gw updates Fixture.stalled in
  (forallb keepsControl updates = true /\
   isProcessingQueue (live Fixture.stalled) = true /\
   currentItemId (live Fixture.stalled) = Some "f1" /\
   JS.truthy "f1" = true /\
   quiescent Fixture.stalled = true) /\
  map status (queue (live w')) = [Completed; Idle] /\
  map id (queue (live w')) = ["f1"; "t3"] /\
  quiescent w' = true.
Proof.
  intros gw updates w'.
  assert (H1 : forallb keepsControl updates = true) by reflexivity.
  assert (H2 : isProcessingQueue (live Fixture.stalled) = true) by (vm_compute; reflexivity).
  assert (H3 : currentItemId (live Fixture.stalled) = Some "f1") by (vm_compute; reflexivity).
  assert (H4 : JS.truthy "f1" = true) by reflexivity.
  assert (H5 : quiescent Fixture.stalled = true) by (vm_compute; reflexivity).
  destruct (a_set_current_item_blocks_the_queue gw updates Fixture.stalled "f1" H1 H2 H3 H4 H5)
    as [Hlive [_ [_ Hquiet]]].
  split; [exact (conj H1 (conj H2 (conj H3 (conj H4 H5))))|].
  split; [subst w'; rewrite Hlive; vm_compute; reflexivity|].
  split; [subst w'; rewrite Hlive; vm_compute; reflexivity|].
  exact Hquiet.
Defined.

